(** * Copilot-AI-Translator: key classification, structure validation,
    translation cache, retry policy and export, checked against the code.

  The development is a shallow embedding of

    - [src/localization_parser.py]  (class [LocalizationParser]),
    - [src/translation_service.py]  (class [TranslationService]),
    - [src/main.py]                 ([export_file], [on_translation_edit]).

  Modelling conventions.

    - A Python [str] is a [string] holding its UTF-8 encoding, which is
      what [encode('utf-8')] returns.  A character starts at every byte
      that is not a continuation byte: [len] and slices count characters,
      not bytes.  Substring tests and the character sets of the patterns
      give the same result on the encoding as on the characters.  Case
      mapping and whitespace are those of ASCII, as are the ranges
      [[a-z]] and [[A-Z]] of [re]: [lower], [upper], [capitalize],
      [strip] and [split] are Python's on ASCII text ([is_ascii]), which
      the keys of the dialect are.  On other text Python also maps the
      case of letters beyond ASCII and strips the blanks beyond ASCII
      (U+00A0, U+3000 and the like), which these functions leave alone.
    - A Python [dict] whose order matters (the parsed JSON object, the
      export mapping) is an association list with unique keys, updated
      with [PyDict.set]; the translation cache, where only lookups matter,
      is a [gmap string string].
    - A Python [float] is a binary64 [float].
    - [re] patterns are terms of a small regular-expression syntax, run by
      a backtracking matcher with Python's priorities (greedy repetition,
      leftmost alternative first, leftmost match first).
    - Effects (the backend call, [time.sleep], [print], the cache file,
      the progress callback) are threaded through an explicit state. *)

From Stdlib Require Import ZArith List Ascii String Bool Lia.
From Stdlib Require Import Floats.PrimFloat Numbers.Cyclic.Int63.Uint63.
From Stdlib Require Import Sorting.Sorted.
From stdpp Require Import base gmap strings.
Import ListNotations.

Local Open Scope string_scope.
Local Open Scope list_scope.

(** ** Python string primitives *)

Module PyStr.

(** [s[len(p):]] when [s] starts with [p] *)
Fixpoint strip_prefix (p s : string) : option string :=
  match p, s with
  | EmptyString, _ => Some s
  | String a p', String b s' =>
      if Ascii.eqb a b then strip_prefix p' s' else None
  | String _ _, EmptyString => None
  end.

(** [s.startswith(p)] *)
Definition startswith (s p : string) : bool :=
  match strip_prefix p s with
  | Some _ => true
  | None => false
  end.

(** [sub in s] *)
Fixpoint contains (sub s : string) : bool :=
  startswith s sub ||
  match s with
  | EmptyString => false
  | String _ s' => contains sub s'
  end.

(** [s.endswith(suf)] *)
Fixpoint endswith (s suf : string) : bool :=
  String.eqb s suf ||
  match s with
  | EmptyString => false
  | String _ s' => endswith s' suf
  end.

Definition is_upper (c : ascii) : bool :=
  let n := nat_of_ascii c in (65 <=? n)%nat && (n <=? 90)%nat.

Definition is_lower (c : ascii) : bool :=
  let n := nat_of_ascii c in (97 <=? n)%nat && (n <=? 122)%nat.

(** [str.isspace] on one ASCII character: blank, TAB, LF, VT, FF, CR and
    the four separators 0x1c-0x1f. *)
Definition is_space (c : ascii) : bool :=
  let n := nat_of_ascii c in
  (n =? 32)%nat || ((9 <=? n)%nat && (n <=? 13)%nat)
  || ((28 <=? n)%nat && (n <=? 31)%nat).

Definition lower_char (c : ascii) : ascii :=
  if is_upper c then ascii_of_nat (nat_of_ascii c + 32) else c.

Definition upper_char (c : ascii) : ascii :=
  if is_lower c then ascii_of_nat (nat_of_ascii c - 32) else c.

Fixpoint map_chars (f : ascii -> ascii) (s : string) : string :=
  match s with
  | EmptyString => EmptyString
  | String c s' => String (f c) (map_chars f s')
  end.

(** [s.lower()], [s.upper()], [s.capitalize()] on ASCII text; a byte
    above 127 is left as it is *)
Definition lower : string -> string := map_chars lower_char.
Definition upper : string -> string := map_chars upper_char.
Definition capitalize (s : string) : string :=
  match s with
  | EmptyString => EmptyString
  | String c s' => String (upper_char c) (lower s')
  end.

(** [s.replace(a, b)] for one-character [a] and [b] *)
Definition replace_char (a b : ascii) : string -> string :=
  map_chars (fun c => if Ascii.eqb c a then b else c).

(** [s.split()]: maximal runs of non-blank characters. [w] is the word
    being read, in reverse. *)
Fixpoint rev_string (acc s : string) : string :=
  match s with
  | EmptyString => acc
  | String c s' => rev_string (String c acc) s'
  end.

Definition flush (w : string) : list string :=
  match w with
  | EmptyString => []
  | _ => [rev_string EmptyString w]
  end.

Fixpoint split_aux (w s : string) : list string :=
  match s with
  | EmptyString => flush w
  | String c s' =>
      if is_space c then flush w ++ split_aux EmptyString s'
      else split_aux (String c w) s'
  end.

Definition split (s : string) : list string := split_aux EmptyString s.

(** [s.lstrip()], [s.rstrip()], [s.strip()]: the ASCII blanks at the ends
    are removed *)
Fixpoint lstrip (s : string) : string :=
  match s with
  | EmptyString => EmptyString
  | String c s' => if is_space c then lstrip s' else s
  end.

Definition rstrip (s : string) : string :=
  rev_string EmptyString (lstrip (rev_string EmptyString s)).

Definition strip (s : string) : string := rstrip (lstrip s).

(** [sep.join(l)] *)
Fixpoint join (sep : string) (l : list string) : string :=
  match l with
  | [] => EmptyString
  | [x] => x
  | x :: l' => x +:+ sep +:+ join sep l'
  end.

(** The first [n] bytes of [s] *)
Fixpoint take (n : nat) (s : string) : string :=
  match n, s with
  | S n', String c s' => String c (take n' s')
  | _, _ => EmptyString
  end.

(** [s[1:-1]] for an [s] whose first and last characters are ASCII (the
    quotes [translate] removes) *)
Definition drop_ends (s : string) : string :=
  match s with
  | EmptyString => EmptyString
  | String _ s' => take (String.length s' - 1) s'
  end.

(** [x in l] for a list of strings *)
Definition in_list (x : string) (l : list string) : bool :=
  existsb (String.eqb x) l.

(** [s.isascii()] *)
Fixpoint is_ascii (s : string) : bool :=
  match s with
  | EmptyString => true
  | String c s' => (nat_of_ascii c <? 128)%nat && is_ascii s'
  end.

(** The bytes 0x80-0xBF continue the character that began before them. *)
Definition is_continuation (c : ascii) : bool :=
  let n := nat_of_ascii c in (128 <=? n)%nat && (n <=? 191)%nat.

(** [len(s)]: the number of characters *)
Fixpoint len (s : string) : nat :=
  match s with
  | EmptyString => 0
  | String c s' => (if is_continuation c then 0 else 1) + len s'
  end.

(** [s[:n]]: the first [n] characters, each with its continuation bytes *)
Fixpoint take_chars (n : nat) (s : string) : string :=
  match s with
  | EmptyString => EmptyString
  | String c s' =>
      if is_continuation c then String c (take_chars n s')
      else
        match n with
        | O => EmptyString
        | S n' => String c (take_chars n' s')
        end
  end.

End PyStr.

(** ** Regular expressions: the fragment of [re] the program uses *)

Module Regex.

(** Character sets: [[abc]], [[^abc]], [[a-z]]. *)
Inductive cset : Type :=
| OneOf (chars : string)
| NoneOf (chars : string)
| Range (lo hi : ascii).

Fixpoint char_in (c : ascii) (s : string) : bool :=
  match s with
  | EmptyString => false
  | String a s' => Ascii.eqb c a || char_in c s'
  end.

Definition mem (cs : cset) (c : ascii) : bool :=
  match cs with
  | OneOf chars => char_in c chars
  | NoneOf chars => negb (char_in c chars)
  | Range lo hi =>
      (nat_of_ascii lo <=? nat_of_ascii c)%nat
      && (nat_of_ascii c <=? nat_of_ascii hi)%nat
  end.

Inductive re : Type :=
| Str (s : string)          (* a literal, escapes resolved *)
| One (cs : cset)           (* [...]   *)
| Star (cs : cset)          (* [...]*  *)
| Plus (cs : cset)          (* [...]+  *)
| Cat (r1 r2 : re)          (* r1 r2   *)
| Alt (r1 r2 : re)          (* r1|r2   *)
| Group (r : re).           (* (r)     *)

(** Greedy repetition of a character set: the longest run first, then
    shorter ones while the continuation fails. *)
Fixpoint star {A : Type} (cs : cset) (s : string)
         (k : string -> option A) : option A :=
  match s with
  | String c s' =>
      if mem cs c then
        match star cs s' k with
        | Some r => Some r
        | None => k s
        end
      else k s
  | EmptyString => k s
  end.

(** The text consumed between [s] and its suffix [rest]. *)
Definition consumed (s rest : string) : string :=
  PyStr.take (String.length s - String.length rest) s.

(** [rmatch r s caps k]: match [r] at the start of [s]; on success call
    [k] with the remaining text and the captured groups. *)
Fixpoint rmatch {A : Type} (r : re) (s : string) (caps : list string)
         (k : string -> list string -> option A) : option A :=
  match r with
  | Str p =>
      match PyStr.strip_prefix p s with
      | Some rest => k rest caps
      | None => None
      end
  | One cs =>
      match s with
      | String c s' => if mem cs c then k s' caps else None
      | EmptyString => None
      end
  | Star cs => star cs s (fun rest => k rest caps)
  | Plus cs =>
      match s with
      | String c s' =>
          if mem cs c then star cs s' (fun rest => k rest caps) else None
      | EmptyString => None
      end
  | Cat r1 r2 =>
      rmatch r1 s caps (fun rest caps' => rmatch r2 rest caps' k)
  | Alt r1 r2 =>
      match rmatch r1 s caps k with
      | Some x => Some x
      | None => rmatch r2 s caps k
      end
  | Group r1 =>
      rmatch r1 s caps
             (fun rest caps' => k rest (caps' ++ [consumed s rest]))
  end.

(** A match object: [group(0)] and the capture groups. *)
Record rmatch_obj : Type := MatchObj {
  whole : string;
  groups : list string
}.

(** [m.group(n)] for [n >= 1] *)
Definition group (m : rmatch_obj) (n : nat) : string :=
  nth (n - 1) (groups m) EmptyString.

(** [re.match(r, s)] *)
Definition match_at (r : re) (s : string) : option rmatch_obj :=
  rmatch r s [] (fun rest caps => Some (MatchObj (consumed s rest) caps)).

(** [re.search(r, s)]: the leftmost position where [r] matches. *)
Fixpoint search (r : re) (s : string) : option rmatch_obj :=
  match match_at r s with
  | Some m => Some m
  | None =>
      match s with
      | EmptyString => None
      | String _ s' => search r s'
      end
  end.

(** [re.findall(r, s)] for a pattern without groups: the matches from
    left to right, none overlapping.  [skip] counts the characters still
    covered by the last match. *)
Fixpoint findall_aux (r : re) (s : string) (skip : nat) : list string :=
  match skip with
  | S skip' =>
      match s with
      | EmptyString => []
      | String _ s' => findall_aux r s' skip'
      end
  | O =>
      match match_at r s with
      | Some m =>
          whole m ::
          match s with
          | EmptyString => []
          | String _ s' => findall_aux r s' (String.length (whole m) - 1)
          end
      | None =>
          match s with
          | EmptyString => []
          | String _ s' => findall_aux r s' 0
          end
      end
  end.

Definition findall (r : re) (s : string) : list string := findall_aux r s 0.

(** [re.sub(r, repl, s)], the template given as a function of the
    groups. *)
Fixpoint sub_aux (r : re) (repl : rmatch_obj -> string) (s : string)
         (skip : nat) : string :=
  match skip with
  | S skip' =>
      match s with
      | EmptyString => EmptyString
      | String _ s' => sub_aux r repl s' skip'
      end
  | O =>
      match match_at r s with
      | Some m =>
          repl m +:+
          match s with
          | EmptyString => EmptyString
          | String c s' =>
              match whole m with
              | EmptyString => String c (sub_aux r repl s' 0)
              | String _ w => sub_aux r repl s' (String.length w)
              end
          end
      | None =>
          match s with
          | EmptyString => EmptyString
          | String c s' => String c (sub_aux r repl s' 0)
          end
      end
  end.

Definition sub (r : re) (repl : rmatch_obj -> string) (s : string) : string :=
  sub_aux r repl s 0.

End Regex.

(** ** Insertion-ordered dictionaries *)

Module PyDict.

Definition dict (V : Type) : Type := list (string * V).

(** [d.get(k)] *)
Fixpoint get {V : Type} (d : dict V) (k : string) : option V :=
  match d with
  | [] => None
  | (k', v) :: d' => if String.eqb k k' then Some v else get d' k
  end.

(** [k in d] *)
Definition has_key {V : Type} (d : dict V) (k : string) : bool :=
  match get d k with
  | Some _ => true
  | None => false
  end.

(** [d[k] = v]: an existing key keeps its position, a new one goes last. *)
Fixpoint set {V : Type} (d : dict V) (k : string) (v : V) : dict V :=
  match d with
  | [] => [(k, v)]
  | (k', v') :: d' =>
      if String.eqb k k' then (k', v) :: d' else (k', v') :: set d' k v
  end.

Definition keys {V : Type} (d : dict V) : list string := map fst d.

End PyDict.

(** ** Parsed JSON, and the outcome of opening and parsing a file *)

#[warnings="-register-all"]
Inductive json : Type :=
| JNull
| JBool (b : bool)
| JNum (literal : string)
| JStr (s : string)
| JArr (items : list json)
| JObj (members : PyDict.dict json).

(** [open(...)] followed by [json.load]: the file cannot be read, its
    content is not JSON, or it parses. *)
Inductive file_read : Type :=
| ReadError (msg : string)
| DecodeError (msg : string)
| Loaded (data : json).

(** [isinstance(v, str)] *)
Definition is_str (v : json) : bool :=
  match v with
  | JStr _ => true
  | _ => false
  end.

(** ** [src/localization_parser.py] *)

Module LocalizationParser.

Import Regex.

Fixpoint cat (rs : list re) : re :=
  match rs with
  | [] => Str ""
  | [r] => r
  | r :: rs' => Cat r (cat rs')
  end.

Definition alt_strs (l : list string) : re :=
  match l with
  | [] => One (OneOf "")
  | x :: l' => fold_left (fun r y => Alt r (Str y)) l' (Str x)
  end.

(** [self.topic_patterns]: the three patterns, then their list. *)

(** [topic\.([^'\.]+)] *)
Definition topic_dot : re :=
  cat [Str "topic."; Group (Plus (NoneOf "'."))].

(** [dialog\([^.]*\.topic\.([^'\.]+)\)] *)
Definition dialog_topic : re :=
  cat [Str "dialog("; Star (NoneOf "."); Str ".topic.";
       Group (Plus (NoneOf "'.")); Str ")"].

(** [globalVariable\([^.]*\.component\.([^)]+)\)] *)
Definition global_component : re :=
  cat [Str "globalVariable("; Star (NoneOf "."); Str ".component.";
       Group (Plus (NoneOf ")")); Str ")"].

Definition topic_patterns : list re :=
  [topic_dot; dialog_topic; global_component].

(** [self.context_patterns], in the order of the dictionary literal *)
Definition context_patterns : PyDict.dict re :=
  [ ("action_type", cat [Str "action("; Group (Plus (NoneOf ")")); Str ")"]);
    ("trigger", cat [Str "trigger("; Group (Plus (NoneOf ")")); Str ")"]);
    ("component",
      cat [Str "."; Group (alt_strs ["Card"; "Activity"; "Prompt"; "Entity"]);
           Str "."]);
    ("ui_element",
      cat [Str "."; Group (alt_strs ["text"; "title"; "DisplayName"])]);
    ("intent",
      cat [Str "Intent."; Group (alt_strs ["DisplayName"; "TriggerQueries"])]) ].

(** The record [parse_entry] returns. *)
Record entry : Type := Entry {
  text : json;
  topic : string;
  context : PyDict.dict string;
  ui_component : string;
  element_type : string;
  description : string
}.

(** [format_topic_name] *)
Definition camel_case : re :=
  (* ([a-z])([A-Z]) *)
  Cat (Group (One (Range "a" "z"))) (Group (One (Range "A" "Z"))).

Definition format_word (word : string) : string :=
  if PyStr.in_list (PyStr.lower word) ["copilot"; "ai"; "ui"; "api"]
  then PyStr.upper word
  else if (1 <? PyStr.len word)%nat then PyStr.capitalize word
  else PyStr.upper word.

Definition format_topic_name (topic : string) : string :=
  let topic := sub camel_case (fun m => group m 1 +:+ " " +:+ group m 2) topic in
  let words := PyStr.split topic in
  PyStr.join " " (map format_word words).

(** [extract_topic]: the loop over [topic_patterns], then the fallbacks. *)
Fixpoint first_topic (patterns : list re) (key : string) : option string :=
  match patterns with
  | [] => None
  | pattern :: rest =>
      match search pattern key with
      | Some m =>
          let topic := group m 1 in
          let topic := PyStr.replace_char "-" " " (PyStr.replace_char "_" " " topic) in
          Some (format_topic_name topic)
      | None => first_topic rest key
      end
  end.

Definition extract_topic (key : string) : string :=
  match first_topic topic_patterns key with
  | Some t => t
  | None =>
      if PyStr.contains "'globalVariable(" key then "Global Variables"
      else "Unknown Topic"
  end.

(** [extract_context] *)
Fixpoint extract_context_from (patterns : PyDict.dict re) (key : string)
  (context : PyDict.dict string) : PyDict.dict string :=
  match patterns with
  | [] => context
  | (context_type, pattern) :: rest =>
      match search pattern key with
      | Some m =>
          extract_context_from rest key (PyDict.set context context_type (group m 1))
      | None => extract_context_from rest key context
      end
  end.

Definition extract_context (key : string) : PyDict.dict string :=
  extract_context_from context_patterns key [].

(** [extract_ui_component] *)
Definition components : list string :=
  ["Card"; "Activity"; "Prompt"; "Entity"; "Intent"; "Dialog"].

Fixpoint first_component (cs : list string) (key : string) : option string :=
  match cs with
  | [] => None
  | component :: rest =>
      if PyStr.contains ("." +:+ component +:+ ".") key then Some component
      else first_component rest key
  end.

Definition extract_ui_component (key : string) : string :=
  match first_component components key with
  | Some component => component
  | None =>
      if PyStr.contains "'globalVariable(" key then "GlobalVariable"
      else
        let lowered := PyStr.lower key in
        if PyStr.contains "knowledgesourcecomponent" lowered
           || PyStr.contains "knowledge_source_component" lowered
        then "KnowledgeSourceComponent"
        else if PyStr.contains ".knowledgebase." lowered
                || PyStr.contains "knowledgebase(" lowered
                || PyStr.contains ".knowledgesource." lowered
        then "KnowledgeSource"
        else if PyStr.endswith key ".DisplayName"
                && PyStr.contains "'dialog(" key
                && negb (PyStr.contains ".Entity." key)
                && negb (PyStr.contains ".Card." key)
                && negb (PyStr.contains ".Activity." key)
                && negb (PyStr.contains ".Prompt." key)
        then "DialogDisplayName"
        else "Unknown"
  end.

(** [extract_element_type] *)
Definition elements : list string :=
  ["text"; "title"; "DisplayName"; "TriggerQueries"; "Description"].

Fixpoint first_element (es : list string) (key : string) : option string :=
  match es with
  | [] => None
  | element :: rest =>
      if PyStr.endswith key ("." +:+ element)
         || PyStr.contains ("." +:+ element +:+ "[") key
      then Some element
      else first_element rest key
  end.

Definition extract_element_type (key : string) : string :=
  match first_element elements key with
  | Some element => element
  | None => "text"
  end.

(** [generate_description] *)
Definition generate_description (key : string) : string :=
  let parts := [] in
  let topic := extract_topic key in
  let parts :=
    if negb (String.eqb topic "Unknown Topic")
    then parts ++ ["Topic: " +:+ topic] else parts in
  let component := extract_ui_component key in
  let parts :=
    if negb (String.eqb component "Unknown")
    then parts ++ ["Component: " +:+ component] else parts in
  let element := extract_element_type key in
  let parts :=
    if negb (String.eqb element "text")
    then parts ++ ["Element: " +:+ element] else parts in
  let context := extract_context key in
  let parts :=
    match PyDict.get context "action_type" with
    | Some action =>
        if PyStr.startswith action "question_" then parts ++ ["Type: Question"]
        else if PyStr.startswith action "sendActivity_" then parts ++ ["Type: Response"]
        else if PyStr.startswith action "sendMessage_" then parts ++ ["Type: Message"]
        else parts ++ ["Type: " +:+ action]
    | None => parts
    end in
  let parts :=
    match parts with
    | [] => ["General localization entry"]
    | _ => parts
    end in
  PyStr.join " | " parts.

(** [parse_entry] *)
Definition parse_entry (key : string) (value : json) : entry :=
  {| text := value;
     topic := extract_topic key;
     context := extract_context key;
     ui_component := extract_ui_component key;
     element_type := extract_element_type key;
     description := generate_description key |}.

(** [load_file]: [inl] is the exception that escapes (the file cannot be
    read or parsed, or the payload has no [items]). *)
Fixpoint load_items (items : PyDict.dict json) (parsed_data : PyDict.dict entry)
  : PyDict.dict entry :=
  match items with
  | [] => parsed_data
  | (key, value) :: rest =>
      load_items rest (PyDict.set parsed_data key (parse_entry key value))
  end.

Definition load_file (file : file_read) : string + PyDict.dict entry :=
  match file with
  | ReadError msg => inl msg
  | DecodeError msg => inl msg
  | Loaded (JObj raw_data) => inr (load_items raw_data [])
  | Loaded _ => inl "object has no attribute 'items'"
  end.

(** [validate_structure].  A key of a parsed JSON object is a string, so
    the first test of the loop never fires. *)
Definition key_has_root_marker (key : string) : bool :=
  PyStr.contains "'dialog(" key
  || PyStr.contains "'topic(" key
  || PyStr.contains "'globalVariable(" key.

Definition check_entry (errors : list string) (key : string) (value : json)
  : list string :=
  let errors :=
    if negb (is_str value)
    then errors ++ ["Value must be string for key: " +:+ key] else errors in
  if negb (key_has_root_marker key)
  then errors ++ ["Key doesn't match expected format: " +:+ key] else errors.

Fixpoint check_entries (items : PyDict.dict json) (errors : list string)
  : list string :=
  match items with
  | [] => errors
  | (key, value) :: rest => check_entries rest (check_entry errors key value)
  end.

Definition truncation_marker : string := "... (showing first 10 errors)".

Definition truncate_errors (errors : list string) : list string :=
  if (10 <? length errors)%nat
  then firstn 10 errors ++ [truncation_marker]
  else errors.

Definition is_empty {A : Type} (l : list A) : bool :=
  match l with
  | [] => true
  | _ => false
  end.

Definition validate_structure (file : file_read) : bool * list string :=
  match file with
  | DecodeError msg => (false, ["Invalid JSON format: " +:+ msg])
  | ReadError msg => (false, ["Error reading file: " +:+ msg])
  | Loaded (JObj data) =>
      let errors := truncate_errors (check_entries data []) in
      (is_empty errors, errors)
  | Loaded _ => (false, ["File must contain a JSON object"])
  end.

(** [get_topic_summary], [get_component_summary]: count the entries per
    value of a field, then [dict(sorted(counts.items()))].  The keys of
    [counts] are distinct, so the sorted order is the order of the keys
    (strings compare character by character), whatever the algorithm;
    here, by insertion. *)
Fixpoint count_loop (field : entry -> string) (items : PyDict.dict entry)
  (counts : PyDict.dict nat) : PyDict.dict nat :=
  match items with
  | [] => counts
  | (_, e) :: rest =>
      let n := match PyDict.get counts (field e) with
               | Some n => n
               | None => 0
               end in
      count_loop field rest (PyDict.set counts (field e) (n + 1))
  end.

Fixpoint insert_sorted (kv : string * nat) (l : list (string * nat))
  : list (string * nat) :=
  match l with
  | [] => [kv]
  | kv' :: l' =>
      if String.leb (fst kv) (fst kv') then kv :: l
      else kv' :: insert_sorted kv l'
  end.

Definition sorted_items (l : list (string * nat)) : list (string * nat) :=
  fold_right insert_sorted [] l.

Definition summary (field : entry -> string) (parsed_data : PyDict.dict entry)
  : PyDict.dict nat :=
  sorted_items (count_loop field (parsed_data) []).

Definition get_topic_summary (parsed_data : PyDict.dict entry) : PyDict.dict nat :=
  summary topic parsed_data.

Definition get_component_summary (parsed_data : PyDict.dict entry)
  : PyDict.dict nat :=
  summary ui_component parsed_data.

(** [filter_by_topic], [filter_by_component]: dictionary comprehensions
    over [parsed_data.items()]. *)
Definition filter_by_topic (parsed_data : PyDict.dict entry) (t : string)
  : PyDict.dict entry :=
  List.filter (fun kv => String.eqb (topic (snd kv)) t) parsed_data.

Definition filter_by_component (parsed_data : PyDict.dict entry) (c : string)
  : PyDict.dict entry :=
  List.filter (fun kv => String.eqb (ui_component (snd kv)) c) parsed_data.

(** [search_entries].  [entry['text'].lower()] is evaluated first for
    every entry, and raises when the text is not a string: [None] is that
    exception. *)
Fixpoint search_loop (search_term : string) (items : PyDict.dict entry)
  (results : PyDict.dict entry) : option (PyDict.dict entry) :=
  match items with
  | [] => Some results
  | (key, e) :: rest =>
      match text e with
      | JStr s =>
          if PyStr.contains search_term (PyStr.lower s)
             || PyStr.contains search_term (PyStr.lower (description e))
             || PyStr.contains search_term (PyStr.lower (topic e))
          then search_loop search_term rest (PyDict.set results key e)
          else search_loop search_term rest results
      | _ => None
      end
  end.

Definition search_entries (parsed_data : PyDict.dict entry) (search_term : string)
  : option (PyDict.dict entry) :=
  let search_term := PyStr.lower search_term in
  search_loop search_term parsed_data [].

(** [export_analysis]: what is dumped to the output file.  The text of an
    entry is cut to its first 100 characters; [len] and the slice raise on
    a text that is neither a string nor a short container ([None]). *)
Record analysis_entry : Type := AnalysisEntry {
  a_key : string;
  a_text : json;
  a_topic : string;
  a_component : string;
  a_description : string
}.

Record analysis : Type := Analysis {
  total_entries : nat;
  topics : PyDict.dict nat;
  components_summary : PyDict.dict nat;
  entries : list analysis_entry
}.

Definition analysis_text (v : json) : option json :=
  match v with
  | JStr s =>
      Some (if (100 <? PyStr.len s)%nat
            then JStr (PyStr.take_chars 100 s +:+ "...")
            else v)
  | JArr l => if (100 <? length l)%nat then None else Some v
  | JObj m => if (100 <? length m)%nat then None else Some v
  | _ => None
  end.

Fixpoint analysis_entries (items : PyDict.dict entry) (acc : list analysis_entry)
  : option (list analysis_entry) :=
  match items with
  | [] => Some acc
  | (key, e) :: rest =>
      match analysis_text (text e) with
      | Some t =>
          analysis_entries rest
            (acc ++ [AnalysisEntry key t (topic e) (ui_component e) (description e)])
      | None => None
      end
  end.

Definition export_analysis (parsed_data : PyDict.dict entry) : option analysis :=
  match analysis_entries (firstn 100 parsed_data) [] with
  | Some l =>
      Some {| total_entries := length parsed_data;
              topics := get_topic_summary parsed_data;
              components_summary := get_component_summary parsed_data;
              entries := l |}
  | None => None
  end.

End LocalizationParser.


(** ** [hashlib.md5]: RFC 1321 on 32-bit words *)

Module MD5.

Local Open Scope Z_scope.

Definition mask32 (x : Z) : Z := Z.land x 0xffffffff.

Definition add32 (x y : Z) : Z := mask32 (x + y).

Definition not32 (x : Z) : Z := Z.lxor x 0xffffffff.

Definition rotl32 (x c : Z) : Z :=
  mask32 (Z.lor (Z.shiftl x c) (Z.shiftr x (32 - c))).

(** The sine table and the per-round shift amounts. *)
Definition K : list Z :=
  [ 0xd76aa478; 0xe8c7b756; 0x242070db; 0xc1bdceee; 0xf57c0faf; 0x4787c62a; 0xa8304613; 0xfd469501;
    0x698098d8; 0x8b44f7af; 0xffff5bb1; 0x895cd7be; 0x6b901122; 0xfd987193; 0xa679438e; 0x49b40821;
    0xf61e2562; 0xc040b340; 0x265e5a51; 0xe9b6c7aa; 0xd62f105d; 0x02441453; 0xd8a1e681; 0xe7d3fbc8;
    0x21e1cde6; 0xc33707d6; 0xf4d50d87; 0x455a14ed; 0xa9e3e905; 0xfcefa3f8; 0x676f02d9; 0x8d2a4c8a;
    0xfffa3942; 0x8771f681; 0x6d9d6122; 0xfde5380c; 0xa4beea44; 0x4bdecfa9; 0xf6bb4b60; 0xbebfbc70;
    0x289b7ec6; 0xeaa127fa; 0xd4ef3085; 0x04881d05; 0xd9d4d039; 0xe6db99e5; 0x1fa27cf8; 0xc4ac5665;
    0xf4292244; 0x432aff97; 0xab9423a7; 0xfc93a039; 0x655b59c3; 0x8f0ccc92; 0xffeff47d; 0x85845dd1;
    0x6fa87e4f; 0xfe2ce6e0; 0xa3014314; 0x4e0811a1; 0xf7537e82; 0xbd3af235; 0x2ad7d2bb; 0xeb86d391 ].

Definition shifts : list Z :=
  [ 7; 12; 17; 22; 7; 12; 17; 22; 7; 12; 17; 22; 7; 12; 17; 22;
    5; 9; 14; 20; 5; 9; 14; 20; 5; 9; 14; 20; 5; 9; 14; 20;
    4; 11; 16; 23; 4; 11; 16; 23; 4; 11; 16; 23; 4; 11; 16; 23;
    6; 10; 15; 21; 6; 10; 15; 21; 6; 10; 15; 21; 6; 10; 15; 21 ].

(** [s.encode('utf-8')]: the string is its own byte sequence. *)
Definition encode (s : string) : list Z :=
  map (fun c => Z.of_nat (nat_of_ascii c)) (list_ascii_of_string s).

Definition le_bytes (n : nat) (x : Z) : list Z :=
  map (fun i => Z.land (Z.shiftr x (8 * Z.of_nat i)) 0xff) (seq 0 n).

(** Padding: a 1 bit, zeros up to 56 modulo 64, the bit length on 64 bits. *)
Definition pad (msg : list Z) : list Z :=
  let len := Z.of_nat (length msg) in
  msg ++ [0x80] ++ repeat 0 (Z.to_nat ((55 - len) mod 64))
      ++ le_bytes 8 (Z.land (8 * len) 0xffffffffffffffff).

Fixpoint words (bs : list Z) : list Z :=
  match bs with
  | b0 :: b1 :: b2 :: b3 :: rest =>
      (b0 + Z.shiftl b1 8 + Z.shiftl b2 16 + Z.shiftl b3 24) :: words rest
  | _ => []
  end.

Record digest_state : Type := St { sa : Z; sb : Z; sc : Z; sd : Z }.

Definition init : digest_state :=
  St 0x67452301 0xefcdab89 0x98badcfe 0x10325476.

Definition step (M : list Z) (st : digest_state) (i : nat) : digest_state :=
  let '(St A B C D) := st in
  let zi := Z.of_nat i in
  let '(F, g) :=
    if zi <? 16 then (Z.lor (Z.land B C) (Z.land (not32 B) D), zi)
    else if zi <? 32 then
      (Z.lor (Z.land D B) (Z.land (not32 D) C), (5 * zi + 1) mod 16)
    else if zi <? 48 then (Z.lxor B (Z.lxor C D), (3 * zi + 5) mod 16)
    else (Z.lxor C (Z.lor B (not32 D)), (7 * zi) mod 16) in
  let F := add32 (add32 (add32 F A) (nth i K 0)) (nth (Z.to_nat g) M 0) in
  St D (add32 B (rotl32 F (nth i shifts 0))) B C.

Definition compress (st : digest_state) (M : list Z) : digest_state :=
  let '(St A B C D) := fold_left (step M) (seq 0 64) st in
  St (add32 (sa st) A) (add32 (sb st) B) (add32 (sc st) C) (add32 (sd st) D).

Fixpoint blocks (n : nat) (ws : list Z) (st : digest_state) : digest_state :=
  match n with
  | O => st
  | S n' => blocks n' (skipn 16 ws) (compress st (firstn 16 ws))
  end.

Definition digest (msg : list Z) : list Z :=
  let ws := words (pad msg) in
  let '(St A B C D) := blocks (length ws / 16) ws init in
  le_bytes 4 A ++ le_bytes 4 B ++ le_bytes 4 C ++ le_bytes 4 D.

Definition hex_digit (x : Z) : ascii :=
  nth (Z.to_nat x) (list_ascii_of_string "0123456789abcdef") "0"%char.

Definition hex (bs : list Z) : string :=
  string_of_list_ascii
    (flat_map (fun b => [hex_digit (Z.shiftr b 4); hex_digit (Z.land b 15)]) bs).

(** [hashlib.md5(b).hexdigest()] *)
Definition hexdigest (msg : list Z) : string := hex (digest msg).

End MD5.

(** ** [src/translation_service.py] *)

Module TranslationService.

Import Regex.

Definition nl : string := String (ascii_of_nat 10) EmptyString.
Definition dquote : string := String (ascii_of_nat 34) EmptyString.
Definition squote : string := "'".

(** What [client.chat.completions.create] is called with, and how a call
    ends: a response whose first choice carries [content], or an
    exception. *)
Record request : Type := Request {
  model : string;
  system_message : string;
  user_message : string;
  max_completion_tokens : Z
}.

Inductive outcome : Type :=
| Completed (content : string)
| Raised (msg : string).

(** The Azure client: the outcome of its [n]-th call on a request. *)
Definition backend : Type := nat -> request -> outcome.

(** What opening and parsing the cache file gives: the file is absent,
    it cannot be read or parsed (the exception has text [msg]), or it
    holds a mapping. *)
Inductive cache_file_read : Type :=
| CacheAbsent
| CacheUnreadable (msg : string)
| CacheOnDisk (content : gmap string string).

(** How [save_cache] fares on the cache file: the dump goes through, or
    an exception with text [msg] is raised.  [remains] is what the failed
    write makes of the file: [None] when [open] itself raised and the file
    is as it was, [Some f] when the file was opened, hence truncated, and a
    later read finds [f]. *)
Inductive cache_write : Type :=
| Saved
| SaveRaises (msg : string) (remains : option cache_file_read).

(** The fields of the service object that do not change, and how writing
    the cache file ends. *)
Record service : Type := Service {
  client : option backend;
  deployment_name : string;
  max_tokens : Z;
  cache_file_write : cache_write
}.

(** What changes: the cache in memory, the cache file, the number of
    backend calls made, and the traces of [time.sleep], [print] and the
    progress callback. *)
Record state : Type := State {
  translation_cache : gmap string string;
  cache_file : cache_file_read;
  calls : nat;
  slept : list Z;
  printed : list string;
  progress : list (Z * Z * string * string)
}.

Definition set_cache (st : state) (c : gmap string string) : state :=
  State c (cache_file st) (calls st) (slept st) (printed st) (progress st).

Definition set_cache_file (st : state) (f : cache_file_read) : state :=
  State (translation_cache st) f (calls st) (slept st) (printed st) (progress st).

Definition count_call (st : state) : state :=
  State (translation_cache st) (cache_file st) (S (calls st)) (slept st)
        (printed st) (progress st).

Definition sleep (st : state) (seconds : Z) : state :=
  State (translation_cache st) (cache_file st) (calls st)
        (slept st ++ [seconds]) (printed st) (progress st).

Definition print (st : state) (line : string) : state :=
  State (translation_cache st) (cache_file st) (calls st) (slept st)
        (printed st ++ [line]) (progress st).

Definition report (st : state) (p : Z * Z * string * string) : state :=
  State (translation_cache st) (cache_file st) (calls st) (slept st)
        (printed st) (progress st ++ [p]).

(** [save_cache]: a failed write is caught and printed with the text of
    the exception. *)
Definition save_cache (svc : service) (st : state) : state :=
  match cache_file_write svc with
  | Saved => set_cache_file st (CacheOnDisk (translation_cache st))
  | SaveRaises msg remains =>
      let st :=
        match remains with
        | Some f => set_cache_file st f
        | None => st
        end in
      print st ("Warning: Failed to save translation cache: " +:+ msg)
  end.

(** [self.style_templates]: description and prompt addition per style. *)
Definition style_templates : PyDict.dict (string * string) :=
  [ ("formal",
      ("Professional, formal tone suitable for business applications",
       "Use formal, professional language appropriate for business software."));
    ("conversational",
      ("Natural, conversational tone for user interactions",
       "Use natural, conversational language that feels friendly and approachable."));
    ("chatbot",
      ("Friendly, helpful tone optimized for chatbot interactions",
       "Use friendly, helpful language optimized for chatbot conversations. Be concise and clear.")) ].

(** [get_cache_key] *)
Definition cache_content (text target_language style context : string) : string :=
  text +:+ "|" +:+ target_language +:+ "|" +:+ style +:+ "|" +:+ context.

Definition get_cache_key (text target_language style context : string) : string :=
  let content := cache_content text target_language style context in
  MD5.hexdigest (MD5.encode content).

(** [_build_translation_prompt] *)
Definition _build_translation_prompt (text target_language style context : string)
  : string :=
  let style_info :=
    match PyDict.get style_templates style with
    | Some info => info
    | None =>
        ("Professional, formal tone suitable for business applications",
         "Use formal, professional language appropriate for business software.")
    end in
  let prompt :=
    "Translate the following text to " +:+ target_language +:+ "." +:+ nl
    +:+ nl
    +:+ "Context: This text is from a Microsoft Copilot Studio chatbot interface."
    +:+ nl in
  let prompt :=
    if negb (String.eqb context "")
    then prompt +:+ "Specific context: " +:+ context +:+ nl
    else prompt in
  prompt +:+ nl
  +:+ "Translation style: " +:+ fst style_info +:+ nl
  +:+ snd style_info +:+ nl
  +:+ nl
  +:+ "Important guidelines:" +:+ nl
  +:+ "1. Maintain the exact meaning and intent of the original text" +:+ nl
  +:+ "2. Preserve any formatting, placeholders (like {variables}), or special characters" +:+ nl
  +:+ "3. Keep emoji and Unicode characters as they are" +:+ nl
  +:+ "4. Ensure the translation is culturally appropriate for the target language" +:+ nl
  +:+ "5. For UI elements, use standard terminology for that language's software interfaces" +:+ nl
  +:+ "6. For chatbot responses, maintain the conversational flow and tone" +:+ nl
  +:+ nl
  +:+ "Text to translate:" +:+ nl
  +:+ dquote +:+ text +:+ dquote +:+ nl
  +:+ nl
  +:+ "Provide only the translated text without any explanations or additional content.".

(** [_mock_translate] *)
Definition _mock_translate (text target_language style : string) : string :=
  let style_prefix :=
    match PyDict.get [("formal", "[FORMAL]"); ("conversational", "[CONV]");
                      ("chatbot", "[BOT]")] style with
    | Some p => p
    | None => "[TRANS]"
    end in
  style_prefix +:+ " " +:+ text +:+ " [" +:+ PyStr.upper target_language +:+ "]".

(** The text kept from a response: stripped, one layer of matching quotes
    removed. *)
Definition unquote (content : string) : string :=
  let translated_text := PyStr.strip content in
  if (PyStr.startswith translated_text dquote && PyStr.endswith translated_text dquote)
     || (PyStr.startswith translated_text squote && PyStr.endswith translated_text squote)
  then PyStr.drop_ends translated_text
  else translated_text.

(** The retry loop of [translate]: [todo] iterations of
    [for attempt in range(max_retries)] remain, starting at [attempt]. *)
Fixpoint attempts (svc : service) (create : backend) (req : request)
  (cache_key : string) (max_retries : Z) (todo : nat) (attempt : Z)
  (st : state) : string * state :=
  match todo with
  | O => ("[ERROR: Translation failed after retries]", st)
  | S todo' =>
      match create (calls st) req with
      | Completed content =>
          let st := count_call st in
          let translated_text := unquote content in
          let st := set_cache st (<[cache_key := translated_text]> (translation_cache st)) in
          let st := save_cache svc st in
          (translated_text, st)
      | Raised e =>
          let st := count_call st in
          if (attempt =? max_retries - 1)%Z then
            let error_msg := "Translation failed: " +:+ e in
            let st := print st error_msg in
            ("[ERROR: " +:+ error_msg +:+ "]", st)
          else
            attempts svc create req cache_key max_retries todo'
                     (attempt + 1)%Z (sleep st (2 ^ attempt)%Z)
      end
  end.

(** The request [translate] sends on every attempt. *)
Definition build_request (svc : service)
  (text target_language style context : string) : request :=
  let prompt := _build_translation_prompt text target_language style context in
  {| model := deployment_name svc;
     system_message :=
       "You are a professional translator specializing in software localization.";
     user_message := prompt;
     max_completion_tokens := max_tokens svc |}.

(** [translate] *)
Definition translate (svc : service) (st : state)
  (text target_language style context : string) (max_retries : Z)
  : string * state :=
  let cache_key := get_cache_key text target_language style context in
  match translation_cache st !! cache_key with
  | Some cached => (cached, st)
  | None =>
      match client svc with
      | None => (_mock_translate text target_language style, st)
      | Some create =>
          let req := build_request svc text target_language style context in
          attempts svc create req cache_key max_retries
                   (Z.to_nat max_retries) 0%Z st
      end
  end.

(** [translate_batch]: the loop over [enumerate(zip(texts, contexts))]. *)
Fixpoint batch_loop (svc : service) (target_language style : string)
  (callback : bool) (total : Z) (i : Z) (pairs : list (string * string))
  (results : list string) (st : state) : list string * state :=
  match pairs with
  | [] => (results, st)
  | (text, context) :: rest =>
      let '(translated, st) := translate svc st text target_language style context 3 in
      let results := results ++ [translated] in
      let st := if callback then report st ((i + 1)%Z, total, text, translated) else st in
      batch_loop svc target_language style callback total (i + 1)%Z rest results st
  end.

Definition translate_batch (svc : service) (st : state) (texts : list string)
  (target_language style : string) (contexts : option (list string))
  (callback : bool) : list string * state :=
  let contexts :=
    match contexts with
    | None => repeat EmptyString (length texts)
    | Some cs => cs
    end in
  let total := Z.of_nat (length texts) in
  batch_loop svc target_language style callback total 0%Z
             (combine texts contexts) [] st.

(** [_extract_placeholders]: [re.findall(r'\{[^}]+\}', text)] *)
Definition placeholder : re :=
  Cat (Str "{") (Cat (Plus (NoneOf "}")) (Str "}")).

Definition _extract_placeholders (text : string) : list string :=
  findall placeholder text.

(** The warnings of [validate_translation], by kind, with the values their
    message is formatted from. *)
Inductive warning : Type :=
| PlaceholderMismatch (original_placeholders translated_placeholders : list string)
| UnusualLengthRatio (length_ratio : float)
| TranslationUnchanged.

Record validation_result : Type := Validation {
  is_valid : bool;
  warnings : list warning;
  errors : list string;
  score : float
}.

Definition len_float (s : string) : float :=
  PrimFloat.of_uint63 (Uint63.of_Z (Z.of_nat (PyStr.len s))).

Definition lists_differ (a b : list string) : bool :=
  negb (bool_decide (a = b)).

Set Warnings "-inexact-float".

(** The three soft checks, each a step on the result so far. *)
Definition check_placeholders (original translated : string)
  (r : validation_result) : validation_result :=
  let original_placeholders := _extract_placeholders original in
  let translated_placeholders := _extract_placeholders translated in
  if lists_differ original_placeholders translated_placeholders
  then Validation (is_valid r)
         (warnings r ++ [PlaceholderMismatch original_placeholders translated_placeholders])
         (errors r) (score r - 0.2)%float
  else r.

Definition check_length (original translated : string)
  (r : validation_result) : validation_result :=
  let length_ratio :=
    if (0 <? PyStr.len original)%nat
    then (len_float translated / len_float original)%float
    else 1%float in
  if PrimFloat.ltb 3 length_ratio || PrimFloat.ltb length_ratio 0.3
  then Validation (is_valid r) (warnings r ++ [UnusualLengthRatio length_ratio])
         (errors r) (score r - 0.1)%float
  else r.

Definition check_unchanged (original translated : string)
  (r : validation_result) : validation_result :=
  if String.eqb (PyStr.lower original) (PyStr.lower translated)
  then Validation (is_valid r) (warnings r ++ [TranslationUnchanged])
         (errors r) (score r - 0.3)%float
  else r.

(** [max(0.0, score)] *)
Definition floor_score (r : validation_result) : validation_result :=
  Validation (is_valid r) (warnings r) (errors r)
    (if PrimFloat.ltb 0 (score r) then score r else 0%float).

(** [validate_translation]; the target language is not read. *)
Definition validate_translation (original translated target_language : string)
  : validation_result :=
  let validation_result := Validation true [] [] 1%float in
  if String.eqb translated "" || String.eqb (PyStr.strip translated) ""
  then Validation false [] ["Translation is empty"] 0%float
  else if PyStr.startswith translated "[ERROR:"
  then Validation false [] ["Translation contains error message"] 0%float
  else
    floor_score
      (check_unchanged original translated
         (check_length original translated
            (check_placeholders original translated validation_result))).

(** [load_cache] *)
Definition load_cache (st : state) (file : cache_file_read) : state :=
  match file with
  | CacheAbsent => st
  | CacheOnDisk content => set_cache st content
  | CacheUnreadable msg =>
      set_cache (print st ("Warning: Failed to load translation cache: " +:+ msg)) ∅
  end.

(** What a later run finds where [save_cache] writes. *)
Definition read_cache_file (st : state) : cache_file_read := cache_file st.

(** [get_translation_styles] *)
Definition get_translation_styles : PyDict.dict string :=
  map (fun kv => (fst kv, fst (snd kv))) style_templates.

End TranslationService.

(** ** [src/main.py]: the application state read by the export *)

Module App.

Import LocalizationParser.

Record app : Type := Application {
  localization_data : PyDict.dict entry;
  translated_data : PyDict.dict (PyDict.dict string);
  target_language : string
}.

(** The state [__init__] builds. *)
Definition initial : app := Application [] [] "English".

(** The topic column of the table ([load_data]): a stray closing
    parenthesis left on the parsed topic (as in ["Authentication)"]) is
    cleaned before display. *)
Fixpoint count_char (c : ascii) (s : string) : nat :=
  match s with
  | EmptyString => 0
  | String d s' => (if Ascii.eqb c d then 1 else 0) + count_char c s'
  end.

Fixpoint lstrip_char (c : ascii) (s : string) : string :=
  match s with
  | EmptyString => EmptyString
  | String d s' => if Ascii.eqb c d then lstrip_char c s' else s
  end.

(** [s.rstrip(c)] for a one-character [c] *)
Definition rstrip_char (c : ascii) (s : string) : string :=
  PyStr.rev_string EmptyString
    (lstrip_char c (PyStr.rev_string EmptyString s)).

Definition display_topic (raw_topic : string) : string :=
  if PyStr.endswith raw_topic ")"
     && (count_char "(" raw_topic <? count_char ")" raw_topic)%nat
  then rstrip_char ")" raw_topic
  else raw_topic.

(** [load_file]: [file_path] is the path the dialog returned (empty when
    dismissed), [file] what opening and parsing it gives.  A failure is
    shown in a dialog and leaves the data as it was. *)
Definition load_file (a : app) (file_path : string) (file : file_read) : app :=
  if String.eqb file_path "" then a
  else
    match LocalizationParser.load_file file with
    | inr data => Application data (translated_data a) (target_language a)
    | inl _ => a
    end.

(** [on_translation_edit] *)
Definition on_translation_edit (a : app) (key new_translation : string) : app :=
  let lang_map :=
    match PyDict.get (translated_data a) key with
    | Some m => m
    | None => []
    end in
  Application (localization_data a)
    (PyDict.set (translated_data a) key
       (PyDict.set lang_map (target_language a) new_translation))
    (target_language a).

(** How [export_file] ends. *)
Inductive export_result : Type :=
| NoSourceLoaded                      (* warning dialog, nothing written *)
| Cancelled                           (* the save dialog was dismissed *)
| Written (file_path : string) (export_data : PyDict.dict json)
| ExportError.                        (* the file could not be written *)

(** [if translated_text:] on the result of [lang_map.get(current_lang)] *)
Definition nonempty_translation (t : option string) : option string :=
  match t with
  | Some s => if String.eqb s "" then None else Some s
  | None => None
  end.

(** First loop: the original keys, in order. *)
Fixpoint export_originals (current_lang : string)
  (translated : PyDict.dict (PyDict.dict string))
  (items : PyDict.dict entry) (export_data : PyDict.dict json)
  : PyDict.dict json :=
  match items with
  | [] => export_data
  | (key, original_entry) :: rest =>
      let translated_text :=
        match PyDict.get translated key with
        | Some lang_map => PyDict.get lang_map current_lang
        | None => None
        end in
      let value :=
        match nonempty_translation translated_text with
        | Some t => JStr t
        | None => text original_entry
        end in
      export_originals current_lang translated rest (PyDict.set export_data key value)
  end.

(** Second loop: translated keys the original does not have. *)
Fixpoint export_extras (current_lang : string)
  (items : PyDict.dict (PyDict.dict string)) (export_data : PyDict.dict json)
  : PyDict.dict json :=
  match items with
  | [] => export_data
  | (key, lang_map) :: rest =>
      let export_data :=
        if negb (PyDict.has_key export_data key) then
          match nonempty_translation (PyDict.get lang_map current_lang) with
          | Some t => PyDict.set export_data key (JStr t)
          | None => export_data
          end
        else export_data in
      export_extras current_lang rest export_data
  end.

Definition export_file (a : app) (file_path : string) (writable : bool)
  : export_result :=
  if LocalizationParser.is_empty (localization_data a) then NoSourceLoaded
  else if String.eqb file_path "" then Cancelled
  else
    let current_lang := target_language a in
    let export_data :=
      export_originals current_lang (translated_data a) (localization_data a) [] in
    let export_data := export_extras current_lang (translated_data a) export_data in
    if writable then Written file_path export_data else ExportError.

(** [_is_global_variable] *)
Definition _is_global_variable (key : string) (meta : entry) : bool :=
  if PyStr.contains "'globalVariable(" key then true
  else if PyStr.contains ".GlobalVariables." key then true
  else if String.eqb (topic meta) "Global Variables" then true
  else if String.eqb (ui_component meta) "GlobalVariable" then true
  else false.

(** [visible_localization_data], as [load_file] computes it from the
    loaded data. *)
Definition visible_localization_data (a : app) : PyDict.dict entry :=
  List.filter (fun kv => negb (_is_global_variable (fst kv) (snd kv)))
              (localization_data a).

End App.

(** ** The classification rules as the specification words them *)

Module Spec.

Import PyStr.

(** Case-insensitive occurrence of [sub] in [s]. *)
Fixpoint prefix_ci (p s : string) : bool :=
  match p, s with
  | EmptyString, _ => true
  | String a p', String b s' =>
      Ascii.eqb (lower_char a) (lower_char b) && prefix_ci p' s'
  | String _ _, EmptyString => false
  end.

Fixpoint contains_ci (sub s : string) : bool :=
  prefix_ci sub s ||
  match s with
  | EmptyString => false
  | String _ s' => contains_ci sub s'
  end.

(** An ordered rule list: the first rule whose condition holds gives the
    result. *)
Fixpoint first_applicable (rules : list ((string -> bool) * string))
  (key default : string) : string :=
  match rules with
  | [] => default
  | (applies, result) :: rest =>
      if applies key then result else first_applicable rest key default
  end.

(** The ten rules of the UI component extraction, in precedence order. *)
Definition ui_component_rules : list ((string -> bool) * string) :=
  [ (contains ".Card.", "Card");
    (contains ".Activity.", "Activity");
    (contains ".Prompt.", "Prompt");
    (contains ".Entity.", "Entity");
    (contains ".Intent.", "Intent");
    (contains ".Dialog.", "Dialog");
    (contains "'globalVariable(", "GlobalVariable");
    (fun key => contains_ci "knowledgesourcecomponent" key
                || contains_ci "knowledge_source_component" key,
     "KnowledgeSourceComponent");
    (fun key => contains_ci ".knowledgebase." key
                || contains_ci "knowledgebase(" key
                || contains_ci ".knowledgesource." key,
     "KnowledgeSource");
    (fun key => endswith key ".DisplayName"
                && contains "'dialog(" key
                && negb (contains ".Entity." key || contains ".Card." key
                         || contains ".Activity." key || contains ".Prompt." key),
     "DialogDisplayName") ].

(** The name captured by the first topic pattern that matches. *)
Fixpoint first_capture (patterns : list Regex.re) (key : string) : option string :=
  match patterns with
  | [] => None
  | pattern :: rest =>
      match Regex.search pattern key with
      | Some m => Some (Regex.group m 1)
      | None => first_capture rest key
      end
  end.

(** Cleanup of a captured name.  A space goes between a lowercase letter
    and an uppercase letter that follows it. *)
Fixpoint split_camel (s : string) : string :=
  match s with
  | EmptyString => EmptyString
  | String a s' =>
      match s' with
      | String b _ =>
          if is_lower a && is_upper b
          then String a (String " " (split_camel s'))
          else String a (split_camel s')
      | EmptyString => String a EmptyString
      end
  end.

(** Title case of one word: first letter upper, the others lower. *)
Definition title_case (w : string) : string :=
  match w with
  | EmptyString => EmptyString
  | String c w' => String (upper_char c) (lower w')
  end.

Definition acronyms : list string := ["copilot"; "ai"; "ui"; "api"].

Definition cleanup_word (w : string) : string :=
  if in_list (lower w) acronyms then upper w
  else if (len w <=? 1)%nat then upper w
  else title_case w.

Definition cleanup (name : string) : string :=
  let spaced := replace_char "-" " " (replace_char "_" " " name) in
  join " " (map cleanup_word (split (split_camel spaced))).

(** Every character of [s] satisfies [p]. *)
Fixpoint all_chars (p : ascii -> bool) (s : string) : bool :=
  match s with
  | EmptyString => true
  | String c s' => p c && all_chars p s'
  end.

(** A character that may occur in a topic name: neither an apostrophe nor
    a dot. *)
Definition name_char (c : ascii) : bool :=
  negb (Ascii.eqb c "'" || Ascii.eqb c ".").

(** A character of a plain name: no apostrophe, dot or parenthesis. *)
Definition plain_char (c : ascii) : bool :=
  name_char c && negb (Ascii.eqb c "(" || Ascii.eqb c ")").

(** What may follow the name: the end of the key, an apostrophe or a
    dot. *)
Definition ends_name (rest : string) : bool :=
  match rest with
  | EmptyString => true
  | String c _ => negb (name_char c)
  end.

(** The calls the progress callback of a batch is expected to receive:
    for the item at position [i], counted from 0, the tuple
    [(i+1, total, source_text, result_text)]. *)
Fixpoint progress_reports (total i : Z) (texts results : list string)
  : list (Z * Z * string * string) :=
  match texts, results with
  | t :: texts', r :: results' =>
      ((i + 1)%Z, total, t, r) :: progress_reports total (i + 1)%Z texts' results'
  | _, _ => []
  end.

(** A batch run, item by item: each pair is translated in the state the
    previous items left, the result is reported when a callback is given,
    and the results come in the order of the pairs. *)
Inductive batch_run (svc : TranslationService.service) (L style : string)
  (callback : bool) (total : Z)
  : Z -> TranslationService.state -> list (string * string) -> list string
    -> TranslationService.state -> Prop :=
| batch_done (i : Z) (st : TranslationService.state) :
    batch_run svc L style callback total i st [] [] st
| batch_item (i : Z) (st st1 st2 : TranslationService.state)
    (text ctx r : string) (rest : list (string * string)) (rs : list string) :
    TranslationService.translate svc st text L style ctx 3 = (r, st1) ->
    batch_run svc L style callback total (i + 1)%Z
      (if callback
       then TranslationService.report st1 ((i + 1)%Z, total, text, r)
       else st1)
      rest rs st2 ->
    batch_run svc L style callback total i st ((text, ctx) :: rest) (r :: rs) st2.

(** The value exported for an original key: the translation into the
    current language when there is one and it is not empty, the original
    text otherwise. *)
Definition exported_value (current_lang : string)
  (translated : PyDict.dict (PyDict.dict string)) (key : string)
  (original : LocalizationParser.entry) : json :=
  match PyDict.get translated key with
  | Some lang_map =>
      match PyDict.get lang_map current_lang with
      | Some t => if String.eqb t "" then LocalizationParser.text original else JStr t
      | None => LocalizationParser.text original
      end
  | None => LocalizationParser.text original
  end.

(** [counts.get(k, 0)] *)
Definition count_or_zero (counts : PyDict.dict nat) (k : string) : nat :=
  match PyDict.get counts k with
  | Some n => n
  | None => 0
  end.

(** The entries whose field has the value [v]. *)
Definition with_value (field : LocalizationParser.entry -> string) (v : string)
  (items : PyDict.dict LocalizationParser.entry)
  : PyDict.dict LocalizationParser.entry :=
  List.filter (fun kv => String.eqb (field (snd kv)) v) items.

(** Ascending order of the keys of a summary. *)
Definition key_le (a b : string * nat) : Prop := String.leb (fst a) (fst b) = true.

(** An entry whose text is an ASCII string and whose topic and description
    are ASCII. *)
Definition ascii_entry (e : LocalizationParser.entry) : bool :=
  match LocalizationParser.text e with
  | JStr s => is_ascii s
  | _ => false
  end
  && is_ascii (LocalizationParser.description e)
  && is_ascii (LocalizationParser.topic e).

(** Whether an entry with a string text matches a lowered search term:
    in its text, its description or its topic, case ignored. *)
Definition entry_matches (lowered_term : string)
  (kv : string * LocalizationParser.entry) : bool :=
  match LocalizationParser.text (snd kv) with
  | JStr s =>
      contains lowered_term (lower s)
      || contains lowered_term (lower (LocalizationParser.description (snd kv)))
      || contains lowered_term (lower (LocalizationParser.topic (snd kv)))
  | _ => false
  end.

End Spec.

(** * Properties *)

(** Proofs about concatenation compute with it. *)
#[local] Arguments String.append !s1 s2 : simpl nomatch.

(** ** Strings *)

Module StrFacts.

Import PyStr.

Lemma append_assoc (a b c : string) : (a +:+ b) +:+ c = a +:+ (b +:+ c).
Proof. induction a as [|x a IH]; simpl; [reflexivity | now rewrite IH]. Qed.

Lemma length_append (a b : string) :
  String.length (a +:+ b) = (String.length a + String.length b)%nat.
Proof. induction a as [|x a IH]; simpl; [reflexivity | now rewrite IH]. Qed.

Lemma append_inv_head (p a b : string) : p +:+ a = p +:+ b -> a = b.
Proof.
  induction p as [|c p IH]; simpl; intros H; [exact H|].
  injection H as H. now apply IH.
Qed.

Lemma strip_prefix_append (p s : string) : strip_prefix p (p +:+ s) = Some s.
Proof.
  induction p as [|c p IH]; simpl; [reflexivity|].
  now rewrite Ascii.eqb_refl.
Qed.

Lemma strip_prefix_Some (p s r : string) : strip_prefix p s = Some r -> s = p +:+ r.
Proof.
  revert s; induction p as [|c p IH]; intros s; simpl.
  - now intros [= ->].
  - destruct s as [|d s]; [discriminate|].
    destruct (Ascii.eqb c d) eqn:E; [|discriminate].
    apply Ascii.eqb_eq in E as ->. intros H. now rewrite (IH _ H).
Qed.

Lemma startswith_append (p s : string) : startswith (p +:+ s) p = true.
Proof. unfold startswith. now rewrite strip_prefix_append. Qed.

Lemma startswith_inv (p s : string) :
  startswith s p = true -> exists r, s = p +:+ r.
Proof.
  unfold startswith. destruct (strip_prefix p s) as [r|] eqn:E; [|discriminate].
  intros _. exists r. now apply strip_prefix_Some.
Qed.

(** A one-character needle: [contains] is membership of the character. *)
Lemma contains_char_cons (c d : ascii) (s : string) :
  contains (String c "") (String d s) = Ascii.eqb c d || contains (String c "") s.
Proof.
  simpl. unfold startswith at 1. simpl.
  now destruct (Ascii.eqb c d).
Qed.

(** [contains] finds an occurrence wherever it starts. *)
Lemma contains_append (sub a b : string) : contains sub (a +:+ sub +:+ b) = true.
Proof.
  induction a as [|c a IH].
  - simpl. destruct (sub +:+ b) eqn:E; simpl;
      rewrite <- E, startswith_append; reflexivity.
  - simpl. rewrite IH. apply orb_true_r.
Qed.

Lemma contains_inv (sub s : string) :
  contains sub s = true -> exists a b, s = a +:+ sub +:+ b.
Proof.
  induction s as [|c s IH]; simpl.
  - rewrite orb_false_r. intros H. apply startswith_inv in H as [r ->].
    now exists "", r.
  - intros H. apply orb_true_iff in H as [H|H].
    + apply startswith_inv in H as [r ->]. now exists "", r.
    + destruct (IH H) as (a & b & ->). now exists (String c a), b.
Qed.

(** [contains] is the substring relation. *)
Lemma contains_spec (sub s : string) :
  contains sub s = true <-> exists a b, s = a +:+ sub +:+ b.
Proof.
  split; [apply contains_inv|].
  intros (a & b & ->). apply contains_append.
Qed.

End StrFacts.

(** ** C1: the cache fingerprint *)

Module CacheKeyFacts.

Import PyStr StrFacts TranslationService.

(** Splitting at the first bar is unambiguous when the field before it
    has none. *)
Lemma bar_split (a a' r r' : string) :
  contains "|" a = false -> contains "|" a' = false ->
  a +:+ "|" +:+ r = a' +:+ "|" +:+ r' -> a = a' /\ r = r'.
Proof.
  revert a'. induction a as [|c a IH]; intros [|c' a'] Ha Ha' H; simpl in H.
  - injection H as ->. now split.
  - injection H as <- _. rewrite contains_char_cons in Ha'. discriminate.
  - injection H as -> _. rewrite contains_char_cons in Ha. discriminate.
  - injection H as -> H.
    rewrite contains_char_cons in Ha, Ha'.
    apply orb_false_iff in Ha as [_ Ha]. apply orb_false_iff in Ha' as [_ Ha'].
    destruct (IH _ Ha Ha' H) as [-> ->]. now split.
Qed.

(** The digested content determines the four fields when the first three
    hold no bar. *)
Lemma cache_content_inj (t l s c t' l' s' c' : string) :
  contains "|" t = false -> contains "|" l = false -> contains "|" s = false ->
  contains "|" t' = false -> contains "|" l' = false -> contains "|" s' = false ->
  cache_content t l s c = cache_content t' l' s' c' ->
  (t, l, s, c) = (t', l', s', c').
Proof.
  intros Ht Hl Hs Ht' Hl' Hs' H. unfold cache_content in H.
  apply bar_split in H as [-> H]; [|assumption..].
  apply bar_split in H as [-> H]; [|assumption..].
  apply bar_split in H as [-> ->]; [|assumption..].
  reflexivity.
Qed.

(** C1, as stated, fails: two requests that differ in [text] and in
    [target_language] are joined to the same content [a|b|c|formal|] and
    get the same fingerprint. *)
Lemma get_cache_key_collision :
  get_cache_key "a|b" "c" "formal" "" = get_cache_key "a" "b|c" "formal" ""
  /\ get_cache_key "a|b" "c" "formal" "" = "e36ffcf2659d279d3c87fa03b62cca26"
  /\ "a|b" <> "a" /\ "c" <> "b|c".
Proof.
  split; [vm_compute; reflexivity|].
  split; [vm_compute; reflexivity|].
  split; discriminate.
Qed.

(** Appending the same text on the right is injective. *)
Lemma append_inv_tail (a b c : string) : a +:+ c = b +:+ c -> a = b.
Proof.
  revert b. induction a as [|x a IH]; intros [|y b] H; simpl in H.
  - reflexivity.
  - exfalso. apply (f_equal String.length) in H.
    cbn [String.length] in H. rewrite length_append in H. lia.
  - exfalso. apply (f_equal String.length) in H.
    cbn [String.length] in H. rewrite length_append in H. lia.
  - injection H as -> H. now rewrite (IH _ H).
Qed.

(** A change of one field alone changes the digested content. *)
Lemma cache_content_one_field (t l s c t' l' s' c' : string) :
  (cache_content t l s c = cache_content t' l s c -> t = t')
  /\ (cache_content t l s c = cache_content t l' s c -> l = l')
  /\ (cache_content t l s c = cache_content t l s' c -> s = s')
  /\ (cache_content t l s c = cache_content t l s c' -> c = c').
Proof.
  unfold cache_content. repeat split; intros H.
  - now apply append_inv_tail in H.
  - apply append_inv_head in H. apply (append_inv_head "|") in H.
    now apply append_inv_tail in H.
  - apply append_inv_head in H. apply (append_inv_head "|") in H.
    apply append_inv_head in H. apply (append_inv_head "|") in H.
    now apply append_inv_tail in H.
  - apply append_inv_head in H. apply (append_inv_head "|") in H.
    apply append_inv_head in H. apply (append_inv_head "|") in H.
    apply append_inv_head in H. now apply (append_inv_head "|") in H.
Qed.

(** C1, amended: the fingerprint is the MD5 hex digest of
    [text|target_language|style|context], whatever the four fields hold;
    tuples that are equal componentwise get the identical fingerprint; a
    change of one field alone, the other three kept, always changes the
    digested content; and when [text], [target_language] and [style] of
    both tuples hold no ['|'], tuples that differ in any of the four
    arguments are digested from different contents. *)
Theorem get_cache_key_content (t l s c t' l' s' c' : string) :
  get_cache_key t l s c = MD5.hexdigest (MD5.encode (cache_content t l s c))
  /\ ((t, l, s, c) = (t', l', s', c') ->
      get_cache_key t l s c = get_cache_key t' l' s' c')
  /\ (t <> t' -> cache_content t l s c <> cache_content t' l s c)
  /\ (l <> l' -> cache_content t l s c <> cache_content t l' s c)
  /\ (s <> s' -> cache_content t l s c <> cache_content t l s' c)
  /\ (c <> c' -> cache_content t l s c <> cache_content t l s c')
  /\ (contains "|" t = false -> contains "|" l = false ->
      contains "|" s = false ->
      contains "|" t' = false -> contains "|" l' = false ->
      contains "|" s' = false ->
      (t, l, s, c) <> (t', l', s', c') ->
      cache_content t l s c <> cache_content t' l' s' c').
Proof.
  destruct (cache_content_one_field t l s c t' l' s' c') as (H1 & H2 & H3 & H4).
  split; [reflexivity|]. split; [now intros [= -> -> -> ->]|].
  split; [intros Hne Heq; now apply Hne, H1|].
  split; [intros Hne Heq; now apply Hne, H2|].
  split; [intros Hne Heq; now apply Hne, H3|].
  split; [intros Hne Heq; now apply Hne, H4|].
  intros Ht Hl Hs Ht' Hl' Hs' Hne Heq. apply Hne. now apply cache_content_inj.
Qed.

Lemma get_cache_key_content_witness :
  get_cache_key "Yes | No" "Spanish" "formal" "Topic: Billing"
  = MD5.hexdigest (MD5.encode "Yes | No|Spanish|formal|Topic: Billing")
  /\ cache_content "Yes | No" "Spanish" "formal" "Topic: Billing"
     <> cache_content "Yes | No" "French" "formal" "Topic: Billing"
  /\ cache_content "Pay now" "Spanish" "formal" "Topic: Billing"
     <> cache_content "Pay" "now" "formal" "Topic: Billing".
Proof.
  destruct (get_cache_key_content "Yes | No" "Spanish" "formal" "Topic: Billing"
              "Yes | No" "French" "formal" "Topic: Billing")
    as (Hkey & _ & _ & Hlang & _).
  destruct (get_cache_key_content "Pay now" "Spanish" "formal" "Topic: Billing"
              "Pay" "now" "formal" "Topic: Billing")
    as (_ & _ & _ & _ & _ & _ & Hany).
  split; [exact Hkey|]. split.
  - apply Hlang. discriminate.
  - apply Hany; try reflexivity. discriminate.
Defined.

End CacheKeyFacts.

(** ** C2: placeholder preservation in [validate_translation] *)

Module ValidationFacts.

Import PyStr TranslationService.

Set Warnings "-inexact-float".

Lemma lists_differ_spec (a b : list string) : lists_differ a b = true <-> a <> b.
Proof.
  unfold lists_differ. case_bool_decide; simpl; split; intros; congruence.
Qed.

(** The later checks add warnings of their own kind only. *)
Lemma check_length_mismatch (o t : string) (r : validation_result) a b :
  In (PlaceholderMismatch a b) (warnings (check_length o t r))
  <-> In (PlaceholderMismatch a b) (warnings r).
Proof.
  unfold check_length.
  destruct (_ || _); simpl; [|reflexivity].
  rewrite in_app_iff; simpl. intuition discriminate.
Qed.

Lemma check_unchanged_mismatch (o t : string) (r : validation_result) a b :
  In (PlaceholderMismatch a b) (warnings (check_unchanged o t r))
  <-> In (PlaceholderMismatch a b) (warnings r).
Proof.
  unfold check_unchanged.
  destruct (String.eqb _ _); simpl; [|reflexivity].
  rewrite in_app_iff; simpl. intuition discriminate.
Qed.

Lemma check_length_valid (o t : string) (r : validation_result) :
  is_valid (check_length o t r) = is_valid r
  /\ errors (check_length o t r) = errors r.
Proof. unfold check_length. destruct (_ || _); now split. Qed.

Lemma check_unchanged_valid (o t : string) (r : validation_result) :
  is_valid (check_unchanged o t r) = is_valid r
  /\ errors (check_unchanged o t r) = errors r.
Proof. unfold check_unchanged. destruct (String.eqb _ _); now split. Qed.

Lemma check_placeholders_valid (o t : string) (r : validation_result) :
  is_valid (check_placeholders o t r) = is_valid r
  /\ errors (check_placeholders o t r) = errors r.
Proof. unfold check_placeholders. destruct (lists_differ _ _); now split. Qed.

(** Past the two hard failures the result is the three soft checks in
    sequence, floored. *)
Lemma validate_translation_soft (o t L : string) :
  t <> "" -> strip t <> "" -> startswith t "[ERROR:" = false ->
  validate_translation o t L
  = floor_score
      (check_unchanged o t
         (check_length o t
            (check_placeholders o t (Validation true [] [] 1%float)))).
Proof.
  intros H1 H2 H3. unfold validate_translation.
  apply String.eqb_neq in H1, H2. now rewrite H1, H2, H3.
Qed.

(** C2, as stated, fails: the two texts hold the same set of placeholders,
    in another order, and the warning is raised and 0.2 deducted. *)
Lemma placeholder_order_mismatch :
  (list_to_set (_extract_placeholders "{a} {b}") : gset string)
    = list_to_set (_extract_placeholders "{b} {a}")
  /\ warnings (validate_translation "{a} {b}" "{b} {a}" "Spanish")
     = [PlaceholderMismatch ["{a}"; "{b}"] ["{b}"; "{a}"]]
  /\ score (validate_translation "{a} {b}" "{b} {a}" "Spanish") = (1 - 0.2)%float.
Proof.
  split; [|split; vm_compute; reflexivity].
  change (_extract_placeholders "{a} {b}") with ["{a}"; "{b}"].
  change (_extract_placeholders "{b} {a}") with ["{b}"; "{a}"].
  set_solver.
Qed.

(** C2, amended: for [translated] non-blank and not starting with
    ["[ERROR:"], the placeholder-mismatch warning is emitted and 0.2 is
    deducted from the score exactly when the list of substrings matching
    [{...}] in [original], in order of occurrence and with repetitions,
    differs from that list in [translated]; this is so in particular
    whenever the two sets of placeholders differ.  For original
    ["Click {button} now"] and translated ["Click now"] the result has the
    placeholder-mismatch warning, score at most 0.8, and [is_valid] true. *)
Theorem validate_translation_placeholders (original translated L : string) :
  translated <> "" -> strip translated <> "" ->
  startswith translated "[ERROR:" = false ->
  let r := validate_translation original translated L in
  let po := _extract_placeholders original in
  let pt := _extract_placeholders translated in
  let r1 := check_placeholders original translated (Validation true [] [] 1%float) in
  is_valid r = true /\ errors r = []
  /\ r = floor_score (check_unchanged original translated
                        (check_length original translated r1))
  /\ (po <> pt ->
      warnings r1 = [PlaceholderMismatch po pt] /\ score r1 = (1 - 0.2)%float)
  /\ (po = pt -> warnings r1 = [] /\ score r1 = 1%float)
  /\ ((exists a b, In (PlaceholderMismatch a b) (warnings r)) <-> po <> pt)
  /\ ((list_to_set po : gset string) <> list_to_set pt ->
      In (PlaceholderMismatch po pt) (warnings r))
  /\ (let c := validate_translation "Click {button} now" "Click now" L in
      warnings c = [PlaceholderMismatch ["{button}"] []]
      /\ PrimFloat.leb (score c) 0.8 = true
      /\ is_valid c = true).
Proof.
  intros H1 H2 H3 r po pt r1.
  assert (Hr : r = floor_score (check_unchanged original translated
                                  (check_length original translated r1)))
    by (now apply validate_translation_soft).
  assert (Hin : forall a b, In (PlaceholderMismatch a b) (warnings r)
                            <-> In (PlaceholderMismatch a b) (warnings r1)).
  { intros a b. rewrite Hr. simpl.
    now rewrite check_unchanged_mismatch, check_length_mismatch. }
  assert (Hd : po <> pt ->
               warnings r1 = [PlaceholderMismatch po pt]
               /\ score r1 = (1 - 0.2)%float).
  { intros Hne. subst r1. unfold check_placeholders. fold po pt.
    apply lists_differ_spec in Hne. now rewrite Hne. }
  assert (He : po = pt -> warnings r1 = [] /\ score r1 = 1%float).
  { intros Heq. subst r1. unfold check_placeholders. fold po pt.
    destruct (lists_differ po pt) eqn:E; [|now split].
    apply lists_differ_spec in E. contradiction. }
  assert (Hiff : (exists a b, In (PlaceholderMismatch a b) (warnings r)) <-> po <> pt).
  { split.
    - intros (a & b & Hab) Heq. apply Hin in Hab.
      destruct (He Heq) as [Hw _]. rewrite Hw in Hab. destruct Hab.
    - intros Hne. exists po, pt. apply Hin.
      destruct (Hd Hne) as [Hw _]. rewrite Hw. now left. }
  repeat split.
  - rewrite Hr. simpl.
    rewrite (proj1 (check_unchanged_valid _ _ _)), (proj1 (check_length_valid _ _ _)).
    unfold r1. now rewrite (proj1 (check_placeholders_valid _ _ _)).
  - rewrite Hr. simpl.
    rewrite (proj2 (check_unchanged_valid _ _ _)), (proj2 (check_length_valid _ _ _)).
    unfold r1. now rewrite (proj2 (check_placeholders_valid _ _ _)).
  - exact Hr.
  - now apply Hd.
  - now apply Hd.
  - now apply He.
  - now apply He.
  - apply Hiff.
  - apply Hiff.
  - intros Hset. apply Hin.
    assert (Hne : po <> pt) by (intros Heq; apply Hset; now rewrite Heq).
    destruct (Hd Hne) as [Hw _]. rewrite Hw. now left.
Qed.

Lemma validate_translation_placeholders_witness :
  startswith "Abrir {archivo}" "[ERROR:" = false
  /\ (exists a b,
         In (PlaceholderMismatch a b)
            (warnings (validate_translation "Open {file}" "Abrir {archivo}" "Spanish")))
  /\ _extract_placeholders "Open {file}" <> _extract_placeholders "Abrir {archivo}".
Proof.
  split; [reflexivity|].
  assert (H : "Abrir {archivo}" <> "") by discriminate.
  assert (H' : strip "Abrir {archivo}" <> "") by (vm_compute; discriminate).
  pose proof (validate_translation_placeholders "Open {file}" "Abrir {archivo}"
                "Spanish" H H' eq_refl) as T.
  cbv zeta in T. destruct T as (_ & _ & _ & _ & _ & Hiff & _).
  split; [apply Hiff|]; vm_compute; discriminate.
Defined.

End ValidationFacts.

(** ** C3, C7: [validate_structure] *)

Module StructureFacts.

Import PyStr StrFacts LocalizationParser.

(** The message reported for a key without root marker. *)
Lemma format_error_inj (k k' : string) :
  "Key doesn't match expected format: " +:+ k
  = "Key doesn't match expected format: " +:+ k' -> k = k'.
Proof. apply append_inv_head. Qed.

(** The loop only ever appends: its result is the errors so far followed
    by the findings of each entry on its own. *)
Lemma check_entry_app (errors : list string) (key : string) (value : json) :
  check_entry errors key value = errors ++ check_entry [] key value.
Proof.
  unfold check_entry.
  destruct (negb (is_str value)), (negb (key_has_root_marker key)); simpl;
    rewrite <- ?app_assoc, ?app_nil_r; reflexivity.
Qed.

Lemma check_entries_app (data : PyDict.dict json) (errors : list string) :
  check_entries data errors
  = errors ++ flat_map (fun kv => check_entry [] (fst kv) (snd kv)) data.
Proof.
  revert errors. induction data as [|[k v] data IH]; intros errors; simpl.
  - now rewrite app_nil_r.
  - rewrite IH, check_entry_app, <- app_assoc. reflexivity.
Qed.



(** On a well-typed mapping the findings are the format errors of the keys
    without marker, in the order of the keys. *)
Lemma check_entries_well_typed (data : PyDict.dict json) :
  Forall (fun kv => is_str (snd kv) = true) data ->
  check_entries data []
  = map (fun k => "Key doesn't match expected format: " +:+ k)
        (List.filter (fun k => negb (key_has_root_marker k)) (PyDict.keys data)).
Proof.
  intros Hty. rewrite check_entries_app. simpl.
  induction Hty as [|[k v] data Hv _ IH]; simpl; [reflexivity|].
  rewrite IH. unfold check_entry. simpl in Hv. rewrite Hv. simpl.
  now destruct (key_has_root_marker k).
Qed.

(** C3, as stated, fails: a key that contains the marker [dialog(] without
    the leading apostrophe is reported. *)
Lemma bare_dialog_marker_rejected :
  contains "dialog(" "dialog(topic.Billing).Card.1.text" = true
  /\ validate_structure
       (Loaded (JObj [("dialog(topic.Billing).Card.1.text", JStr "Pay now")]))
     = (false,
        ["Key doesn't match expected format: dialog(topic.Billing).Card.1.text"]).
Proof. split; vm_compute; reflexivity. Qed.

(** C3, amended: for every key of a mapping whose values are all strings,
    [validate_structure] appends the "doesn't match expected format" error
    for that key if and only if the key contains none of the three root
    markers ['dialog(], ['topic(], ['globalVariable(], each with its
    leading apostrophe; these are the only errors found, in key order. *)
Theorem format_error_iff_no_root_marker (data : PyDict.dict json) (key : string) :
  Forall (fun kv => is_str (snd kv) = true) data ->
  In key (PyDict.keys data) ->
  (In ("Key doesn't match expected format: " +:+ key) (check_entries data [])
   <-> contains "'dialog(" key = false
       /\ contains "'topic(" key = false
       /\ contains "'globalVariable(" key = false)
  /\ (forall value errors, is_str value = true ->
        check_entry errors key value
        = if contains "'dialog(" key || contains "'topic(" key
             || contains "'globalVariable(" key
          then errors
          else errors ++ ["Key doesn't match expected format: " +:+ key])
  /\ check_entries data []
     = map (fun k => "Key doesn't match expected format: " +:+ k)
           (List.filter (fun k => negb (key_has_root_marker k)) (PyDict.keys data)).
Proof.
  intros Hty Hkey. split; [|split].
  - rewrite (check_entries_well_typed _ Hty), in_map_iff.
    split.
    + intros (k & Hk & Hin). apply format_error_inj in Hk as ->.
      apply filter_In in Hin as [_ Hm]. apply negb_true_iff in Hm.
      unfold key_has_root_marker in Hm.
      apply orb_false_iff in Hm as [Hm H3]. apply orb_false_iff in Hm as [H1 H2].
      now repeat split.
    + intros (H1 & H2 & H3). exists key. split; [reflexivity|].
      apply filter_In. split; [exact Hkey|].
      unfold key_has_root_marker. now rewrite H1, H2, H3.
  - intros value errors Hv. unfold check_entry, key_has_root_marker.
    rewrite Hv. simpl. now destruct (_ || _).
  - now apply check_entries_well_typed.
Qed.

Lemma format_error_iff_no_root_marker_witness :
  In ("Key doesn't match expected format: " +:+ "greeting.text")
     (check_entries [("'dialog(topic.Billing).Card.1.text", JStr "Pay now");
                     ("greeting.text", JStr "Hello")] [])
  <-> contains "'dialog(" "greeting.text" = false
      /\ contains "'topic(" "greeting.text" = false
      /\ contains "'globalVariable(" "greeting.text" = false.
Proof.
  apply (format_error_iff_no_root_marker
           [("'dialog(topic.Billing).Card.1.text", JStr "Pay now");
            ("greeting.text", JStr "Hello")] "greeting.text").
  - repeat constructor.
  - simpl. now right; left.
Defined.




End StructureFacts.

(** ** C4: export right after load *)

Module ExportFacts.

Import LocalizationParser App.

(** Assigning to a key the dictionary does not hold appends it. *)
Lemma set_fresh {V : Type} (d : PyDict.dict V) (k : string) (v : V) :
  ~ In k (PyDict.keys d) -> PyDict.set d k v = d ++ [(k, v)].
Proof.
  induction d as [|[k' v'] d IH]; simpl; intros H; [reflexivity|].
  destruct (String.eqb k k') eqn:E.
  - apply String.eqb_eq in E. subst. exfalso. apply H. now left.
  - rewrite IH; [reflexivity|]. intros Hin. apply H. now right.
Qed.

Lemma keys_app {V : Type} (d d' : PyDict.dict V) :
  PyDict.keys (d ++ d') = PyDict.keys d ++ PyDict.keys d'.
Proof. apply map_app. Qed.

(** Loading keeps the order of the file and classifies each entry. *)
Lemma load_items_fresh (items : PyDict.dict json) (acc : PyDict.dict entry) :
  NoDup (PyDict.keys items) ->
  (forall k, In k (PyDict.keys items) -> ~ In k (PyDict.keys acc)) ->
  load_items items acc
  = acc ++ map (fun kv => (fst kv, parse_entry (fst kv) (snd kv))) items.
Proof.
  revert acc. induction items as [|[k v] items IH]; intros acc Hnd Hfresh; simpl.
  - now rewrite app_nil_r.
  - inversion Hnd as [|? ? Hk Hnd']; subst.
    rewrite set_fresh by (apply Hfresh; now left).
    rewrite IH; [now rewrite <- app_assoc|assumption|].
    intros k' Hk' Hin. rewrite keys_app in Hin.
    apply in_app_or in Hin as [Hin|[<-|[]]].
    + apply (Hfresh k'); [now right|assumption].
    + apply Hk, list_elem_of_In. exact Hk'.
Qed.

(** Without translations the first export loop copies the original texts. *)
Lemma export_originals_fresh (lang : string) (items : PyDict.dict entry)
  (acc : PyDict.dict json) :
  NoDup (PyDict.keys items) ->
  (forall k, In k (PyDict.keys items) -> ~ In k (PyDict.keys acc)) ->
  export_originals lang [] items acc
  = acc ++ map (fun kv => (fst kv, text (snd kv))) items.
Proof.
  revert acc. induction items as [|[k e] items IH]; intros acc Hnd Hfresh; simpl.
  - now rewrite app_nil_r.
  - inversion Hnd as [|? ? Hk Hnd']; subst.
    rewrite set_fresh by (apply Hfresh; now left).
    rewrite IH; [now rewrite <- app_assoc|assumption|].
    intros k' Hk' Hin. rewrite keys_app in Hin.
    apply in_app_or in Hin as [Hin|[<-|[]]].
    + apply (Hfresh k'); [now right|assumption].
    + apply Hk, list_elem_of_In. exact Hk'.
Qed.

Lemma load_items_keys (raw : PyDict.dict json) :
  PyDict.keys (map (fun kv => (fst kv, parse_entry (fst kv) (snd kv))) raw)
  = PyDict.keys raw.
Proof. unfold PyDict.keys. rewrite map_map. reflexivity. Qed.

Lemma export_of_load (raw : PyDict.dict json) :
  map (fun kv : string * entry => (fst kv, text (snd kv)))
      (map (fun kv : string * json => (fst kv, parse_entry (fst kv) (snd kv))) raw)
  = raw.
Proof.
  rewrite map_map. simpl. induction raw as [|[k v] raw IH]; simpl;
    [reflexivity | now rewrite IH].
Qed.

(** C4, as stated, fails on the empty mapping: after loading [{}] the
    export is refused with the "No source file loaded" warning, and no
    mapping is written. *)
Lemma export_empty_mapping_refused :
  export_file (load_file initial "in.json" (Loaded (JObj []))) "out.json" true
  = NoSourceLoaded.
Proof. reflexivity. Qed.

(** C4, amended: for a non-empty input mapping, exporting immediately after
    loading it, with no translations performed, writes a mapping equal to
    the original one: the same keys in the same insertion order, each with
    its original value.  (After loading an empty mapping nothing is
    exported.) *)
Theorem export_after_load_roundtrip (a0 : app) (raw : PyDict.dict json)
  (path_in path_out : string) :
  NoDup (PyDict.keys raw) -> raw <> [] ->
  translated_data a0 = [] -> path_in <> "" -> path_out <> "" ->
  let a := load_file a0 path_in (Loaded (JObj raw)) in
  PyDict.keys (localization_data a) = PyDict.keys raw
  /\ translated_data a = []
  /\ export_file a path_out true = Written path_out raw.
Proof.
  intros Hnd Hne Htr Hin Hout a.
  assert (Ha : a = Application
                     (map (fun kv => (fst kv, parse_entry (fst kv) (snd kv))) raw)
                     [] (App.target_language a0)).
  { subst a. unfold load_file. apply String.eqb_neq in Hin. rewrite Hin. simpl.
    rewrite load_items_fresh by (auto; intros k _ []). rewrite Htr. reflexivity. }
  rewrite Ha. cbn [localization_data translated_data].
  split; [apply load_items_keys|]. split; [reflexivity|].
  unfold export_file. cbn [localization_data translated_data App.target_language].
  assert (He : is_empty (map (fun kv : string * json =>
                                (fst kv, parse_entry (fst kv) (snd kv))) raw) = false)
    by (destruct raw; [contradiction | reflexivity]).
  apply String.eqb_neq in Hout. rewrite He, Hout.
  rewrite export_originals_fresh.
  - rewrite app_nil_l, export_of_load. reflexivity.
  - rewrite load_items_keys. exact Hnd.
  - intros k _ [].
Qed.

Lemma export_after_load_roundtrip_witness :
  export_file
    (load_file initial "Sample.json"
       (Loaded (JObj [("'dialog(topic.Billing).Card.1.text", JStr "Pay now");
                      ("'dialog(topic.Billing).DisplayName", JStr "Billing")])))
    "out.json" true
  = Written "out.json"
      [("'dialog(topic.Billing).Card.1.text", JStr "Pay now");
       ("'dialog(topic.Billing).DisplayName", JStr "Billing")].
Proof.
  apply (export_after_load_roundtrip initial
           [("'dialog(topic.Billing).Card.1.text", JStr "Pay now");
            ("'dialog(topic.Billing).DisplayName", JStr "Billing")]
           "Sample.json" "out.json").
  - apply (bool_decide_unpack _). vm_compute. exact I.
  - discriminate.
  - reflexivity.
  - discriminate.
  - discriminate.
Defined.

End ExportFacts.

(** ** C5: the retry policy of [translate] *)

Module RetryFacts.

Import PyStr StrFacts TranslationService.

Lemma save_cache_fields (svc : service) (st : state) :
  translation_cache (save_cache svc st) = translation_cache st
  /\ slept (save_cache svc st) = slept st
  /\ calls (save_cache svc st) = calls st
  /\ progress (save_cache svc st) = progress st.
Proof.
  unfold save_cache. destruct (cache_file_write svc) as [|msg [f|]]; now repeat split.
Qed.

(** The delays slept before attempts [attempt+1], ..., [attempt+n]. *)
Lemma backoff_shift (attempt : Z) (n : nat) :
  map (fun i => (2 ^ (attempt + Z.of_nat i))%Z) (seq 1 n)
  = map (fun i => (2 ^ (attempt + 1 + Z.of_nat i))%Z) (seq 0 n).
Proof.
  rewrite <- seq_shift, map_map. apply map_ext. intros i. f_equal. lia.
Qed.

(** When every remaining attempt fails, the loop ends on the error
    sentinel, having slept [2^attempt] after each attempt but the last,
    and leaves the cache alone. *)
Lemma attempts_all_fail (svc : service) (create : backend) (req : request)
  (key : string) (max_retries : Z) (todo : nat) :
  forall (attempt : Z) (st : state),
    (todo <> 0%nat -> (attempt + Z.of_nat todo)%Z = max_retries) ->
    (forall i, (i < todo)%nat -> exists e, create (calls st + i)%nat req = Raised e) ->
    let out := attempts svc create req key max_retries todo attempt st in
    startswith (fst out) "[ERROR:" = true
    /\ slept (snd out)
       = slept st ++ map (fun i => (2 ^ (attempt + Z.of_nat i))%Z) (seq 0 (todo - 1))
    /\ translation_cache (snd out) = translation_cache st
    /\ calls (snd out) = (calls st + todo)%nat
    /\ progress (snd out) = progress st.
Proof.
  induction todo as [|n IH]; intros attempt st Hlast Hfail; simpl.
  - repeat split; simpl; rewrite ?app_nil_r; auto.
  - destruct (Hfail 0%nat ltac:(lia)) as [e He].
    rewrite Nat.add_0_r in He. rewrite He.
    destruct (attempt =? max_retries - 1)%Z eqn:E.
    + apply Z.eqb_eq in E.
      assert (n = 0%nat) by (specialize (Hlast ltac:(discriminate)); lia).
      subst n. simpl. rewrite app_nil_r. repeat split; auto. lia.
    + apply Z.eqb_neq in E.
      assert (Hn : n <> 0%nat) by (specialize (Hlast ltac:(discriminate)); lia).
      specialize (IH (attempt + 1)%Z (sleep (count_call st) (2 ^ attempt)%Z)).
      destruct IH as (H1 & H2 & H3 & H4 & H5).
      * intros _. specialize (Hlast ltac:(discriminate)). lia.
      * intros i Hi. simpl.
        replace (S (calls st + i)) with (calls st + S i)%nat by lia.
        apply Hfail. lia.
      * repeat split; try assumption.
        -- rewrite H2. simpl. rewrite <- app_assoc. f_equal.
           rewrite Nat.sub_0_r.
           destruct n as [|m]; [contradiction|].
           simpl seq. simpl map. rewrite Z.add_0_r.
           rewrite Nat.sub_0_r, backoff_shift. reflexivity.
        -- rewrite H4. simpl. lia.
Qed.



End RetryFacts.

(** ** C6: precedence of the UI component rules *)

Module ComponentFacts.

Import PyStr StrFacts LocalizationParser Spec.

Lemma startswith_lower (p s : string) :
  startswith (lower s) (lower p) = prefix_ci p s.
Proof.
  unfold startswith. revert s.
  induction p as [|a p IH]; intros s; simpl; [reflexivity|].
  destruct s as [|b s]; simpl; [reflexivity|].
  destruct (Ascii.eqb (lower_char a) (lower_char b)); simpl; [apply IH|reflexivity].
Qed.

(** Searching the lowered key for a lowered needle is the case-insensitive
    search. *)
Lemma contains_lower (p s : string) :
  contains (lower p) (lower s) = contains_ci p s.
Proof.
  induction s as [|b s IH].
  - simpl. change EmptyString with (lower ""). now rewrite startswith_lower.
  - simpl. rewrite <- IH. f_equal.
    change (String (lower_char b) (map_chars lower_char s)) with (lower (String b s)).
    apply startswith_lower.
Qed.

(** C6: [extract_ui_component] returns the result of the first applicable
    rule, in the precedence order of the ten rules: the six literal
    markers, the global-variable marker, the two case-insensitive
    knowledge-source rules, the dialog display name, and ["Unknown"]
    otherwise. *)
Theorem extract_ui_component_precedence (key : string) :
  extract_ui_component key = first_applicable ui_component_rules key "Unknown".
Proof.
  unfold extract_ui_component, ui_component_rules, components.
  cbn [first_component first_applicable String.append].
  rewrite <- !contains_lower.
  change (lower "knowledgesourcecomponent") with "knowledgesourcecomponent".
  change (lower "knowledge_source_component") with "knowledge_source_component".
  change (lower ".knowledgebase.") with ".knowledgebase.".
  change (lower "knowledgebase(") with "knowledgebase(".
  change (lower ".knowledgesource.") with ".knowledgesource.".
  destruct (contains ".Card." key) eqn:HC; [reflexivity|].
  destruct (contains ".Activity." key) eqn:HA; [reflexivity|].
  destruct (contains ".Prompt." key) eqn:HP; [reflexivity|].
  destruct (contains ".Entity." key) eqn:HE; [reflexivity|].
  destruct (contains ".Intent." key); [reflexivity|].
  destruct (contains ".Dialog." key); [reflexivity|].
  destruct (contains "'globalVariable(" key); [reflexivity|].
  destruct (_ || _); [reflexivity|].
  destruct (_ || _); [reflexivity|].
  cbn [negb orb]. rewrite !andb_true_r. reflexivity.
Qed.

End ComponentFacts.

(** ** C8, C9: topic extraction *)

Module TopicFacts.

Import PyStr StrFacts Regex LocalizationParser Spec.

(** *** The matcher on the shapes the topic patterns have *)

Lemma take_length_append (a b : string) : take (String.length a) (a +:+ b) = a.
Proof. induction a as [|c a IH]; simpl; [now destruct b | now rewrite IH]. Qed.

Lemma consumed_append (a b : string) : consumed (a +:+ b) b = a.
Proof.
  unfold consumed. rewrite length_append.
  replace (String.length a + String.length b - String.length b)%nat
    with (String.length a) by lia.
  apply take_length_append.
Qed.

Lemma consumed_cons (c : ascii) (s : string) : consumed (String c s) s = String c "".
Proof. apply (consumed_append (String c "") s). Qed.

Lemma consumed_cons2 (c d : ascii) (s : string) :
  consumed (String c (String d s)) s = String c (String d "").
Proof. apply (consumed_append (String c (String d "")) s). Qed.

(** A greedy run takes all of [N] when every character of [N] is in the
    set, what follows is the end or a character outside the set, and the
    rest of the pattern accepts there. *)
Lemma star_run {A : Type} (cs : cset) (N r : string) (k : string -> option A) (x : A) :
  all_chars (mem cs) N = true ->
  match r with
  | EmptyString => True
  | String c _ => mem cs c = false
  end ->
  k r = Some x ->
  star cs (N +:+ r) k = Some x.
Proof.
  intros HN Hr Hk. induction N as [|c N IH]; simpl.
  - destruct r as [|c r]; simpl; [exact Hk|]. now rewrite Hr.
  - simpl in HN. apply andb_true_iff in HN as [Hc HN].
    rewrite Hc, (IH HN). reflexivity.
Qed.

(** A pattern that starts with a literal fails where the literal does not
    start. *)
Lemma match_at_literal_fails (lit : string) (r : re) (s : string) :
  startswith s lit = false -> match_at (Cat (Str lit) r) s = None.
Proof.
  unfold startswith, match_at. simpl.
  now destruct (strip_prefix lit s).
Qed.

Lemma startswith_extend (p u v : string) :
  (String.length p <= String.length u)%nat ->
  startswith (u +:+ v) p = startswith u p.
Proof.
  unfold startswith. revert u.
  induction p as [|a p IH]; intros u Hlen; simpl; [reflexivity|].
  destruct u as [|b u]; simpl in *; [lia|].
  destruct (Ascii.eqb a b); [|reflexivity].
  apply IH. lia.
Qed.

(** *** The first topic pattern *)

Lemma name_char_mem (c : ascii) : mem (NoneOf "'.") c = name_char c.
Proof. unfold mem, name_char. simpl. now rewrite orb_false_r. Qed.

Lemma all_name_chars (N : string) :
  all_chars (mem (NoneOf "'.")) N = all_chars name_char N.
Proof.
  induction N as [|c N IH]; cbn [all_chars]; [reflexivity|].
  now rewrite IH, name_char_mem.
Qed.

(** Where [topic.] is followed by a name and the name by its end, the
    pattern matches and captures the name. *)
Lemma match_at_topic_dot (N r : string) :
  N <> "" -> all_chars name_char N = true -> ends_name r = true ->
  match_at topic_dot ("topic." +:+ N +:+ r)
  = Some (MatchObj ("topic." +:+ N) [N]).
Proof.
  intros HN Hall Hend. unfold match_at, topic_dot.
  cbn [rmatch cat]. rewrite strip_prefix_append.
  destruct N as [|c N]; [contradiction|].
  simpl in Hall. apply andb_true_iff in Hall as [Hc Hall].
  cbn [String.append]. rewrite name_char_mem, Hc.
  apply star_run.
  - now rewrite all_name_chars.
  - destruct r as [|d r]; [exact I|]. simpl in Hend.
    rewrite name_char_mem. now apply negb_true_iff in Hend.
  - cbn [app]. f_equal. f_equal.
    + exact (consumed_append ("topic." +:+ String c N) r).
    + f_equal. exact (consumed_append (String c N) r).
Qed.

Lemma match_at_topic_dot_fails (s : string) :
  startswith s "topic." = false -> match_at topic_dot s = None.
Proof. apply match_at_literal_fails. Qed.

(** The search skips a prefix in which [topic.] does not start. *)
Lemma search_topic_dot_skip (pre s : string) :
  contains "topic." (pre +:+ "topic") = false ->
  search topic_dot (pre +:+ "topic." +:+ s) = search topic_dot ("topic." +:+ s).
Proof.
  induction pre as [|c pre IH]; intros H; [reflexivity|].
  change (String c pre +:+ "topic." +:+ s) with (String c (pre +:+ "topic." +:+ s)).
  change (String c pre +:+ "topic") with (String c (pre +:+ "topic")) in H.
  cbn [contains] in H. apply orb_false_iff in H as [Hhere Hlater].
  assert (E : String c (pre +:+ "topic." +:+ s)
              = String c (pre +:+ "topic") +:+ ("." +:+ s)).
  { change (String c (pre +:+ "topic") +:+ ("." +:+ s))
      with (String c ((pre +:+ "topic") +:+ ("." +:+ s))).
    now rewrite append_assoc. }
  cbn [search]. rewrite match_at_topic_dot_fails; [now apply IH|].
  rewrite E, startswith_extend; [exact Hhere|].
  cbn [String.length]. rewrite length_append. simpl. lia.
Qed.

Lemma search_here (r : re) (s : string) (m : rmatch_obj) :
  match_at r s = Some m -> search r s = Some m.
Proof. intros H. destruct s; cbn [search]; now rewrite H. Qed.

Lemma search_topic_dot (pre N r : string) :
  contains "topic." (pre +:+ "topic") = false ->
  N <> "" -> all_chars name_char N = true -> ends_name r = true ->
  search topic_dot (pre +:+ "topic." +:+ N +:+ r)
  = Some (MatchObj ("topic." +:+ N) [N]).
Proof.
  intros Hpre HN Hall Hend.
  rewrite search_topic_dot_skip by exact Hpre.
  apply search_here. now apply match_at_topic_dot.
Qed.

(** *** The cleanup of the captured name *)

Lemma upper_not_lower (c : ascii) : is_upper c = true -> is_lower c = false.
Proof.
  unfold is_upper, is_lower. cbv zeta. intros H.
  apply andb_true_iff in H as [_ H]. apply Nat.leb_le in H.
  apply andb_false_iff. left. apply Nat.leb_gt. lia.
Qed.

Lemma split_camel_upper (b : ascii) (s : string) :
  is_upper b = true -> split_camel (String b s) = String b (split_camel s).
Proof.
  intros H. destruct s as [|c s]; [reflexivity|].
  cbn [split_camel]. now rewrite (upper_not_lower b H).
Qed.

Lemma split_camel_step (a b : ascii) (s : string) :
  split_camel (String a (String b s))
  = if is_lower a && is_upper b
    then String a (String " " (split_camel (String b s)))
    else String a (split_camel (String b s)).
Proof. reflexivity. Qed.

(** Where the camelCase pattern matches: on a lowercase letter followed
    by an uppercase letter. *)
Lemma match_at_camel (s : string) :
  match_at camel_case s
  = match s with
    | String a (String b _) =>
        if is_lower a && is_upper b
        then Some (MatchObj (String a (String b "")) [String a ""; String b ""])
        else None
    | _ => None
    end.
Proof.
  unfold match_at, camel_case. cbn [rmatch].
  destruct s as [|a [|b s]]; [reflexivity| |].
  - change (mem (Range "a" "z") a) with (is_lower a).
    now destruct (is_lower a).
  - change (mem (Range "a" "z") a) with (is_lower a).
    change (mem (Range "A" "Z") b) with (is_upper b).
    destruct (is_lower a); [|reflexivity].
    destruct (is_upper b); [|reflexivity].
    cbn [andb app]. now rewrite consumed_cons, consumed_cons, consumed_cons2.
Qed.

Lemma sub_aux_step (r : re) (repl : rmatch_obj -> string) (a : ascii) (s : string) :
  sub_aux r repl (String a s) 0
  = match match_at r (String a s) with
    | Some m =>
        repl m +:+
        match whole m with
        | EmptyString => String a (sub_aux r repl s 0)
        | String _ w => sub_aux r repl s (String.length w)
        end
    | None => String a (sub_aux r repl s 0)
    end.
Proof. reflexivity. Qed.

Lemma sub_aux_skip (r : re) (repl : rmatch_obj -> string) (a : ascii) (s : string)
  (n : nat) :
  sub_aux r repl (String a s) (S n) = sub_aux r repl s n.
Proof. reflexivity. Qed.

(** The substitution of [([a-z])([A-Z])] by [\1 \2] inserts the spaces the
    specification describes. *)
Lemma sub_camel_case (s : string) :
  sub camel_case (fun m => group m 1 +:+ " " +:+ group m 2) s = split_camel s.
Proof.
  unfold sub.
  assert (H : forall n s, (String.length s <= n)%nat ->
                sub_aux camel_case (fun m => group m 1 +:+ " " +:+ group m 2) s 0
                = split_camel s).
  { clear s. induction n as [|n IH]; intros s Hlen.
    - destruct s; [reflexivity | simpl in Hlen; lia].
    - destruct s as [|a [|b s]];
        [reflexivity | now rewrite sub_aux_step, match_at_camel |].
      rewrite sub_aux_step, match_at_camel.
      cbn [String.length] in Hlen.
      destruct (is_lower a && is_upper b) eqn:E.
      + apply andb_true_iff in E as [Ea Eb].
        cbn [whole groups group nth Nat.sub String.length].
        rewrite sub_aux_skip, IH by lia.
        rewrite split_camel_step, Ea, Eb. cbn [andb].
        now rewrite (split_camel_upper b s Eb).
      + rewrite IH by (cbn [String.length]; lia).
        now rewrite split_camel_step, E. }
  now apply (H (String.length s)).
Qed.

Lemma rev_string_nonempty (acc s : string) :
  acc <> "" \/ s <> "" -> rev_string acc s <> "".
Proof.
  revert acc. induction s as [|c s IH]; intros acc H; simpl.
  - now destruct H.
  - apply IH. left. discriminate.
Qed.

(** [split] yields no empty word. *)
Lemma split_aux_nonempty (w s : string) : Forall (fun x => x <> "") (split_aux w s).
Proof.
  revert w. induction s as [|c s IH]; intros w; simpl.
  - destruct w; constructor; [|constructor].
    apply rev_string_nonempty. right. discriminate.
  - destruct (is_space c); [|apply IH].
    apply Forall_app. split; [|apply IH].
    destruct w; constructor; [|constructor].
    apply rev_string_nonempty. right. discriminate.
Qed.

Lemma format_word_cleanup (w : string) : w <> "" -> format_word w = cleanup_word w.
Proof.
  intros H. unfold format_word, cleanup_word.
  change (in_list (lower w) ["copilot"; "ai"; "ui"; "api"])
    with (in_list (lower w) acronyms).
  destruct (in_list (lower w) acronyms); [reflexivity|].
  destruct (Nat.ltb_spec 1 (len w)) as [Hl|Hl].
  - replace (len w <=? 1)%nat with false by (symmetry; apply Nat.leb_gt; lia).
    destruct w; [contradiction|reflexivity].
  - replace (len w <=? 1)%nat with true by (symmetry; apply Nat.leb_le; lia).
    reflexivity.
Qed.

(** [format_topic_name] after the two replacements is the cleanup of the
    specification. *)
Lemma format_topic_name_cleanup (name : string) :
  format_topic_name (replace_char "-" " " (replace_char "_" " " name)) = cleanup name.
Proof.
  unfold format_topic_name, cleanup. rewrite sub_camel_case. f_equal.
  apply map_ext_Forall.
  eapply Forall_impl; [apply split_aux_nonempty|].
  intros w Hw. now apply format_word_cleanup.
Qed.

(** The loop over the patterns returns the cleanup of the first capture. *)
Lemma first_topic_capture (patterns : list re) (key : string) :
  first_topic patterns key = option_map cleanup (first_capture patterns key).
Proof.
  induction patterns as [|p ps IH]; cbn [first_topic first_capture]; [reflexivity|].
  destruct (search p key); [|exact IH].
  cbn [option_map]. now rewrite format_topic_name_cleanup.
Qed.

Lemma extract_topic_rules (key : string) :
  extract_topic key
  = match first_capture topic_patterns key with
    | Some name => cleanup name
    | None =>
        if contains "'globalVariable(" key then "Global Variables"
        else "Unknown Topic"
    end.
Proof.
  unfold extract_topic. rewrite first_topic_capture.
  now destruct (first_capture topic_patterns key).
Qed.

Lemma extract_topic_at_name (pre N r : string) :
  contains "topic." (pre +:+ "topic") = false ->
  N <> "" -> all_chars name_char N = true -> ends_name r = true ->
  extract_topic (pre +:+ "topic." +:+ N +:+ r) = cleanup N.
Proof.
  intros Hpre HN Hall Hend. rewrite extract_topic_rules.
  unfold topic_patterns. cbn [first_capture].
  now rewrite (search_topic_dot pre N r Hpre HN Hall Hend).
Qed.

Lemma all_chars_impl (p q : ascii -> bool) (s : string) :
  (forall c, p c = true -> q c = true) ->
  all_chars p s = true -> all_chars q s = true.
Proof.
  intros Hpq. induction s as [|c s IH]; simpl; [reflexivity|].
  intros H. apply andb_true_iff in H as [Hc Hs].
  now rewrite (Hpq _ Hc), (IH Hs).
Qed.

(** C8, as stated, fails in its last sentence: the leftmost match wins,
    so a key that contains the name [Foo] after [topic.], behind another
    topic name, is given the other topic. *)
Lemma topic_foo_not_captured :
  contains "topic.Foo." "x.topic.Bar.topic.Foo.text" = true
  /\ extract_topic "x.topic.Bar.topic.Foo.text" = "Bar".
Proof. split; vm_compute; reflexivity. Qed.

(** C8, amended: when one of the ordered topic patterns matches (first
    match wins), [extract_topic] returns the captured name after cleanup:
    underscores and hyphens replaced by spaces, a space inserted between a
    lowercase letter and a following uppercase letter, then each word
    title-cased except that the acronyms copilot, ai, ui, api and
    single-character words are upper-cased; if no pattern matches the
    result is ["Global Variables"] when the key contains the
    global-variable marker and ["Unknown Topic"] otherwise.  In particular,
    for a key in which [topic.] first occurs in front of a plain name [N]
    (ASCII, without apostrophe, dot or parenthesis) that is followed by the
    end of the key, an apostrophe or a dot, the topic is the cleanup of
    [N]; it is ["Foo"] when [N] is [Foo].  Nothing is said of a name that
    a parenthesis follows. *)
Theorem extract_topic_cleanup (key pre N r : string) :
  (is_ascii key = true ->
   extract_topic key
   = match first_capture topic_patterns key with
     | Some name => cleanup name
     | None =>
         if contains "'globalVariable(" key then "Global Variables"
         else "Unknown Topic"
     end)
  /\ (contains "topic." (pre +:+ "topic") = false ->
      N <> "" -> is_ascii N = true -> all_chars plain_char N = true ->
      ends_name r = true ->
      extract_topic (pre +:+ "topic." +:+ N +:+ r) = cleanup N)
  /\ (contains "topic." (pre +:+ "topic") = false -> ends_name r = true ->
      extract_topic (pre +:+ "topic.Foo" +:+ r) = "Foo").
Proof.
  split; [intros _; apply extract_topic_rules|]. split.
  - intros Hpre HN _ Hall Hend. apply extract_topic_at_name; try assumption.
    revert Hall. apply all_chars_impl. intros c Hc. unfold plain_char in Hc.
    now apply andb_true_iff in Hc as [Hc _].
  - intros Hpre Hend.
    apply (extract_topic_at_name pre "Foo" r Hpre);
      [discriminate|reflexivity|exact Hend].
Qed.

Lemma extract_topic_cleanup_witness :
  extract_topic ("x." +:+ "topic." +:+ "orderStatus_api" +:+ ".Card.1.text")
  = cleanup "orderStatus_api"
  /\ cleanup "orderStatus_api" = "Order Status API"
  /\ extract_topic ("'dialog(cr1_bot." +:+ "topic.Foo" +:+ ".Card.1.text") = "Foo".
Proof.
  destruct (extract_topic_cleanup "unrelated.key" "x." "orderStatus_api"
              ".Card.1.text") as (_ & Hname & _).
  destruct (extract_topic_cleanup "unrelated.key" "'dialog(cr1_bot." "Foo"
              ".Card.1.text") as (_ & _ & Hfoo).
  split; [|split; [vm_compute; reflexivity|]].
  - apply Hname; [reflexivity|discriminate|reflexivity|reflexivity|reflexivity].
  - apply Hfoo; reflexivity.
Defined.

(** C9: what the code computes on the entry of the specification's
    end-to-end example.  The first topic pattern captures up to the next
    dot, closing parenthesis included, so the topic is ["Billing)"] and the
    description carries it; the table of the application strips that
    parenthesis again before display.  The other fields and the mock
    translation are as the example states. *)
Theorem billing_entry_keeps_parenthesis :
  parse_entry "'dialog(topic.Billing).Card.1.text" (JStr "Pay now")
  = {| text := JStr "Pay now";
       topic := "Billing)";
       context := [("component", "Card"); ("ui_element", "text")];
       ui_component := "Card";
       element_type := "text";
       description := "Topic: Billing) | Component: Card" |}
  /\ Regex.search topic_dot "'dialog(topic.Billing).Card.1.text"
     = Some (MatchObj "topic.Billing)" ["Billing)"])
  /\ App.display_topic "Billing)" = "Billing"
  /\ TranslationService.translate
       (TranslationService.Service None "gpt-4" 2000 TranslationService.Saved)
       (TranslationService.State ∅ TranslationService.CacheAbsent 0 [] [] [])
       "Pay now" "Spanish" "formal" "" 3
     = ("[FORMAL] Pay now [SPANISH]",
        TranslationService.State ∅ TranslationService.CacheAbsent 0 [] [] []).
Proof.
  split; [vm_compute; reflexivity|].
  split; [vm_compute; reflexivity|].
  split; [vm_compute; reflexivity|].
  unfold TranslationService.translate.
  cbn [TranslationService.translation_cache TranslationService.client].
  rewrite lookup_empty. vm_compute. reflexivity.
Qed.

End TopicFacts.

(** ** C10: [translate_batch] pairs texts and contexts by position *)

Module BatchFacts.

Import PyStr TranslationService Spec.

(** [translate] never touches the trace of the progress callback. *)
Lemma attempts_progress (svc : service) (create : backend) (req : request)
  (key : string) (max_retries : Z) (todo : nat) :
  forall (attempt : Z) (st : state),
    progress (snd (attempts svc create req key max_retries todo attempt st))
    = progress st.
Proof.
  induction todo as [|n IH]; intros attempt st; cbn [attempts]; [reflexivity|].
  destruct (create (calls st) req) as [content|e].
  - cbn [snd]. now rewrite (proj2 (proj2 (proj2 (RetryFacts.save_cache_fields _ _)))).
  - destruct (attempt =? max_retries - 1)%Z; [reflexivity|].
    now rewrite IH.
Qed.

Lemma translate_progress (svc : service) (st : state)
  (text L style ctx : string) (max_retries : Z) :
  progress (snd (translate svc st text L style ctx max_retries)) = progress st.
Proof.
  unfold translate.
  destruct (translation_cache st !! _); [reflexivity|].
  destruct (client svc); [apply attempts_progress | reflexivity].
Qed.

(** The loop adds one result per pair, in order, and one report per pair
    when a callback is given. *)
Lemma batch_loop_spec (svc : service) (L style : string) (callback : bool)
  (total : Z) (pairs : list (string * string)) :
  forall (i : Z) (results : list string) (st : state),
    exists new : list string,
      fst (batch_loop svc L style callback total i pairs results st) = results ++ new
      /\ length new = length pairs
      /\ progress (snd (batch_loop svc L style callback total i pairs results st))
         = progress st
           ++ (if callback then progress_reports total i (map fst pairs) new else []).
Proof.
  induction pairs as [|[text ctx] rest IH]; intros i results st; cbn [batch_loop].
  - exists []. rewrite !app_nil_r. destruct callback; now rewrite ?app_nil_r.
  - pose proof (translate_progress svc st text L style ctx 3) as Hp.
    destruct (translate svc st text L style ctx 3) as [translated st1].
    cbn [snd] in Hp.
    destruct (IH (i + 1)%Z (results ++ [translated])
                 (if callback then report st1 ((i + 1)%Z, total, text, translated)
                  else st1))
      as (new & Hres & Hlen & Hlog).
    exists (translated :: new). split; [|split].
    + rewrite Hres, <- app_assoc. reflexivity.
    + cbn [length]. now rewrite Hlen.
    + rewrite Hlog. destruct callback.
      * cbn [report progress map fst progress_reports].
        rewrite Hp, <- app_assoc. reflexivity.
      * now rewrite Hp.
Qed.

Lemma batch_loop_run (svc : service) (L style : string) (callback : bool)
  (total : Z) (pairs : list (string * string)) :
  forall (i : Z) (results : list string) (st : state),
    exists new : list string,
      fst (batch_loop svc L style callback total i pairs results st) = results ++ new
      /\ batch_run svc L style callback total i st pairs new
           (snd (batch_loop svc L style callback total i pairs results st)).
Proof.
  induction pairs as [|[text ctx] rest IH]; intros i results st; cbn [batch_loop].
  - exists []. rewrite app_nil_r. split; [reflexivity|constructor].
  - destruct (translate svc st text L style ctx 3) as [translated st1] eqn:T.
    destruct (IH (i + 1)%Z (results ++ [translated])
                 (if callback then report st1 ((i + 1)%Z, total, text, translated)
                  else st1))
      as (new & Hres & Hrun).
    exists (translated :: new). split.
    + rewrite Hres, <- app_assoc. reflexivity.
    + econstructor; [exact T | exact Hrun].
Qed.

Lemma reports_of_zip (total : Z) (texts : list string) :
  forall (cs new : list string) (i : Z),
    length new = length (combine texts cs) ->
    progress_reports total i (map fst (combine texts cs)) new
    = progress_reports total i texts new.
Proof.
  induction texts as [|t texts IH]; intros cs new i Hlen; [reflexivity|].
  destruct cs as [|c cs].
  - destruct new; [reflexivity | discriminate].
  - destruct new as [|r new]; [discriminate|].
    cbn [combine map fst progress_reports]. f_equal.
    apply IH. now injection Hlen.
Qed.

Lemma length_zip_min (texts cs : list string) :
  length (combine texts cs) = Nat.min (length texts) (length cs).
Proof.
  revert cs. induction texts as [|t texts IH]; intros [|c cs]; cbn; auto.
Qed.

Lemma length_blank_contexts (n : nat) : length (repeat EmptyString n) = n.
Proof. induction n as [|n IH]; cbn; auto. Qed.

(** C10: the batch pairs texts and contexts by position, with or without
    a progress callback.  An explicit [contexts] shorter than [texts]
    yields only [len(contexts)] results, the trailing texts being dropped
    without notice; when [contexts] is omitted or has the length of
    [texts], there is one result per text, in the order of the texts: each
    result is what [translate] returns for the text and the context at its
    position, in the state the items before it left.  A callback is
    invoked once after each item with
    [(index+1, total, source_text, result_text)], and nothing is reported
    without one. *)
Theorem translate_batch_pairs (svc : service) (st : state) (texts : list string)
  (L style : string) (contexts : option (list string)) (callback : bool) :
  let cs := match contexts with
            | None => repeat EmptyString (length texts)
            | Some cs => cs
            end in
  let out := translate_batch svc st texts L style contexts callback in
  let total := Z.of_nat (length texts) in
  length (fst out) = Nat.min (length texts) (length cs)
  /\ batch_run svc L style callback total 0 st (combine texts cs) (fst out) (snd out)
  /\ progress (snd out)
     = progress st
       ++ (if callback then progress_reports total 0 texts (fst out) else [])
  /\ (forall given, contexts = Some given -> (length given < length texts)%nat ->
        length (fst out) = length given
        /\ (length (fst out) < length texts)%nat
        /\ (callback = true ->
            length (progress (snd out)) = (length (progress st) + length given)%nat))
  /\ (contexts = None
      \/ (exists given, contexts = Some given /\ length given = length texts) ->
      length (fst out) = length texts
      /\ (callback = true ->
          length (progress (snd out)) = (length (progress st) + length texts)%nat)).
Proof.
  intros cs out total.
  destruct (batch_loop_spec svc L style callback total (combine texts cs) 0%Z [] st)
    as (new & Hres & Hlen & Hlog).
  assert (Hout : fst out = new) by exact Hres.
  assert (Hn : length (fst out) = Nat.min (length texts) (length cs))
    by (now rewrite Hout, Hlen, length_zip_min).
  assert (Hp : progress (snd out)
               = progress st
                 ++ (if callback then progress_reports total 0 texts (fst out)
                     else [])).
  { rewrite Hout. unfold out, translate_batch. fold cs total.
    rewrite Hlog. f_equal. destruct callback; [|reflexivity].
    now apply reports_of_zip. }
  assert (Hreports : forall (ts rs : list string) (i : Z),
             length rs = Nat.min (length ts) (length rs) ->
             length (progress_reports total i ts rs) = length rs).
  { induction ts as [|t ts IHts]; intros [|r rs] i H; cbn in *; auto; lia. }
  assert (Hplen : callback = true ->
                  length (progress (snd out))
                  = (length (progress st) + length (fst out))%nat).
  { intros ->. rewrite Hp, length_app, Hreports; [reflexivity|]. rewrite Hn. lia. }
  split; [exact Hn|]. split.
  { destruct (batch_loop_run svc L style callback total (combine texts cs) 0%Z [] st)
      as (run & Hrun_res & Hrun).
    unfold out at 1, translate_batch. fold cs total.
    rewrite Hrun_res. exact Hrun. }
  split; [exact Hp|]. split.
  - intros given -> Hshort. subst cs. rewrite Hn.
    rewrite Nat.min_r by lia. repeat split; try lia.
    intros Hcb. rewrite (Hplen Hcb), Hn. rewrite Nat.min_r by lia. reflexivity.
  - intros [->|(given & -> & Hsame)]; subst cs; rewrite Hn.
    + rewrite length_blank_contexts, Nat.min_id. split; [reflexivity|].
      intros Hcb. rewrite (Hplen Hcb), Hn.
      now rewrite length_blank_contexts, Nat.min_id.
    + rewrite Hsame, Nat.min_id. split; [reflexivity|].
      intros Hcb. rewrite (Hplen Hcb), Hn. now rewrite Hsame, Nat.min_id.
Qed.

End BatchFacts.

(** * Further properties of the code *)

(** ** [translate]: first success, cache hits, persistence *)

Module CacheFacts.

Import PyStr StrFacts TranslationService.

Lemma save_cache_file (svc : service) (st : state) :
  cache_file_write svc = Saved ->
  cache_file (save_cache svc st) = CacheOnDisk (translation_cache st).
Proof. intros H. unfold save_cache. now rewrite H. Qed.

(** The loop stops at the first attempt that succeeds: it has slept
    [2^attempt] after each failure before it, stores the text of the
    response under the fingerprint and has called the backend once per
    attempt made. *)
Lemma attempts_first_success (svc : service) (create : backend) (req : request)
  (key : string) (max_retries : Z) (todo : nat) :
  forall (k : nat) (attempt : Z) (st : state) (content : string),
    (k < todo)%nat ->
    (attempt + Z.of_nat todo)%Z = max_retries ->
    (forall i, (i < k)%nat -> exists e, create (calls st + i)%nat req = Raised e) ->
    create (calls st + k)%nat req = Completed content ->
    let out := attempts svc create req key max_retries todo attempt st in
    fst out = unquote content
    /\ translation_cache (snd out) = <[key := unquote content]> (translation_cache st)
    /\ slept (snd out)
       = slept st ++ map (fun i => (2 ^ (attempt + Z.of_nat i))%Z) (seq 0 k)
    /\ calls (snd out) = (calls st + k + 1)%nat
    /\ (cache_file_write svc = Saved ->
        cache_file (snd out) = CacheOnDisk (translation_cache (snd out))).
Proof.
  induction todo as [|n IH]; intros k attempt st content Hk Hlast Hfail Hok;
    [lia|].
  destruct k as [|k].
  - rewrite Nat.add_0_r in Hok. cbn [attempts]. rewrite Hok. cbn zeta.
    destruct (RetryFacts.save_cache_fields svc
                (set_cache (count_call st)
                   (<[key := unquote content]> (translation_cache (count_call st)))))
      as (Hc & Hs & Hn & _).
    cbn [fst snd].
    split; [reflexivity|]. split; [now rewrite Hc|].
    split; [rewrite Hs; cbn [seq map]; now rewrite app_nil_r|].
    split; [rewrite Hn; cbn; lia|].
    intros Hw. rewrite save_cache_file by exact Hw. now rewrite Hc.
  - destruct (Hfail 0%nat ltac:(lia)) as [e He].
    rewrite Nat.add_0_r in He. cbn [attempts]. rewrite He.
    destruct (attempt =? max_retries - 1)%Z eqn:E; [apply Z.eqb_eq in E; lia|].
    specialize (IH k (attempt + 1)%Z (sleep (count_call st) (2 ^ attempt)%Z) content).
    destruct IH as (H1 & H2 & H3 & H4 & H5).
    + lia.
    + lia.
    + intros i Hi. cbn [calls sleep count_call].
      replace (S (calls st) + i)%nat with (calls st + S i)%nat by lia.
      apply Hfail. lia.
    + cbn [calls sleep count_call].
      replace (S (calls st) + k)%nat with (calls st + S k)%nat by lia. exact Hok.
    + cbv zeta. repeat split; try assumption.
      * rewrite H3. cbn [slept sleep count_call]. rewrite <- app_assoc. f_equal.
        cbn [seq map app]. rewrite Z.add_0_r. f_equal.
        symmetry. apply RetryFacts.backoff_shift.
      * rewrite H4. cbn [calls sleep count_call]. lia.
Qed.

Lemma translate_first_success_facts (svc : service) (create : backend) (st : state)
  (text L style ctx : string) (max_retries : Z) (k : nat) (content : string) :
  client svc = Some create ->
  translation_cache st !! get_cache_key text L style ctx = None ->
  (Z.of_nat k < max_retries)%Z ->
  (forall i, (i < k)%nat ->
     exists e, create (calls st + i)%nat (build_request svc text L style ctx) = Raised e) ->
  create (calls st + k)%nat (build_request svc text L style ctx) = Completed content ->
  let out := translate svc st text L style ctx max_retries in
  fst out = unquote content
  /\ translation_cache (snd out)
     = <[get_cache_key text L style ctx := unquote content]> (translation_cache st)
  /\ slept (snd out) = slept st ++ map (fun i => (2 ^ Z.of_nat i)%Z) (seq 0 k)
  /\ calls (snd out) = (calls st + k + 1)%nat.
Proof.
  intros Hclient Hmiss Hk Hfail Hok out. subst out. unfold translate.
  rewrite Hmiss, Hclient.
  destruct (attempts_first_success svc create (build_request svc text L style ctx)
              (get_cache_key text L style ctx) max_retries (Z.to_nat max_retries)
              k 0%Z st content) as (H1 & H2 & H3 & H4 & _);
    try assumption; try lia.
  repeat split; assumption.
Qed.

(** X1: [translate] returns the text of the first successful response.
    With a configured backend and a text that is not cached, if the
    backend fails on the first [k] attempts and succeeds on the next one,
    [k < max_retries], the result is that response (stripped, one layer of
    quotes removed), the cache maps the fingerprint to it, the delays slept
    are [2^0, ..., 2^(k-1)] seconds and the backend was called [k+1]
    times. *)
Theorem translate_first_success (svc : service) (create : backend) (st : state)
  (text L style ctx : string) (max_retries : Z) (k : nat) (content : string) :
  client svc = Some create ->
  translation_cache st !! get_cache_key text L style ctx = None ->
  (Z.of_nat k < max_retries)%Z ->
  (forall i, (i < k)%nat ->
     exists e, create (calls st + i)%nat (build_request svc text L style ctx) = Raised e) ->
  create (calls st + k)%nat (build_request svc text L style ctx) = Completed content ->
  let out := translate svc st text L style ctx max_retries in
  fst out = unquote content
  /\ translation_cache (snd out)
     = <[get_cache_key text L style ctx := unquote content]> (translation_cache st)
  /\ slept (snd out) = slept st ++ map (fun i => (2 ^ Z.of_nat i)%Z) (seq 0 k)
  /\ calls (snd out) = (calls st + k + 1)%nat.
Proof. exact (translate_first_success_facts svc create st text L style ctx max_retries k content). Qed.

Lemma translate_first_success_witness :
  fst (translate
         (Service (Some (fun n _ => if (n <? 1)%nat then Raised "busy"
                                    else Completed "'Pagar ahora'"))
                  "gpt-4" 2000 Saved)
         (State ∅ CacheAbsent 0 [] [] []) "Pay now" "Spanish" "formal" "" 3)
  = "Pagar ahora".
Proof.
  pose proof (translate_first_success
                (Service (Some (fun n _ => if (n <? 1)%nat then Raised "busy"
                                           else Completed "'Pagar ahora'"))
                         "gpt-4" 2000 Saved)
                (fun n _ => if (n <? 1)%nat then Raised "busy"
                            else Completed "'Pagar ahora'")
                (State ∅ CacheAbsent 0 [] [] []) "Pay now" "Spanish" "formal" "" 3 1
                "'Pagar ahora'" eq_refl (lookup_empty _) eq_refl) as T.
  destruct T as (H1 & _).
  - intros i Hi. exists "busy". destruct i; [reflexivity|lia].
  - reflexivity.
  - rewrite H1. vm_compute. reflexivity.
Defined.

(** X2: a translation that succeeded is served from the cache afterwards.
    Asking again for the same text, language, style and context returns
    the same text, whatever [max_retries], without calling the backend,
    sleeping or changing the state. *)
Theorem translate_again_hits_cache (svc : service) (create : backend) (st : state)
  (text L style ctx : string) (max_retries again : Z) (k : nat) (content : string) :
  client svc = Some create ->
  translation_cache st !! get_cache_key text L style ctx = None ->
  (Z.of_nat k < max_retries)%Z ->
  (forall i, (i < k)%nat ->
     exists e, create (calls st + i)%nat (build_request svc text L style ctx) = Raised e) ->
  create (calls st + k)%nat (build_request svc text L style ctx) = Completed content ->
  let out := translate svc st text L style ctx max_retries in
  translate svc (snd out) text L style ctx again = out.
Proof.
  intros Hclient Hmiss Hk Hfail Hok out.
  destruct (translate_first_success_facts svc create st text L style ctx max_retries k
              content Hclient Hmiss Hk Hfail Hok) as (H1 & H2 & _).
  fold out in H1, H2. unfold translate at 1.
  rewrite H2, lookup_insert_eq, <- H1. now destruct out.
Qed.

Lemma translate_again_hits_cache_witness :
  translate (Service (Some (fun _ _ => Completed "Hola")) "gpt-4" 2000 Saved)
    (snd (translate (Service (Some (fun _ _ => Completed "Hola")) "gpt-4" 2000 Saved)
            (State ∅ CacheAbsent 0 [] [] []) "Hello" "Spanish" "formal" "" 3))
    "Hello" "Spanish" "formal" "" 1
  = translate (Service (Some (fun _ _ => Completed "Hola")) "gpt-4" 2000 Saved)
      (State ∅ CacheAbsent 0 [] [] []) "Hello" "Spanish" "formal" "" 3.
Proof.
  apply (translate_again_hits_cache
           (Service (Some (fun _ _ => Completed "Hola")) "gpt-4" 2000 Saved)
           (fun _ _ => Completed "Hola") (State ∅ CacheAbsent 0 [] [] [])
           "Hello" "Spanish" "formal" "" 3 1 0 "Hola" eq_refl (lookup_empty _) eq_refl).
  - intros i Hi. lia.
  - reflexivity.
Defined.

(** X3: the cache survives a restart.  After a successful translation with
    a writable cache file, a service that starts from the initial state
    and loads that file answers the same request from the cache: same
    text, no backend call, even without a backend. *)
Theorem cache_survives_restart (svc later : service) (create : backend) (st : state)
  (text L style ctx : string) (max_retries again : Z) (k : nat) (content : string) :
  client svc = Some create ->
  cache_file_write svc = Saved ->
  translation_cache st !! get_cache_key text L style ctx = None ->
  (Z.of_nat k < max_retries)%Z ->
  (forall i, (i < k)%nat ->
     exists e, create (calls st + i)%nat (build_request svc text L style ctx) = Raised e) ->
  create (calls st + k)%nat (build_request svc text L style ctx) = Completed content ->
  let out := translate svc st text L style ctx max_retries in
  let restarted := load_cache (State ∅ CacheAbsent 0 [] [] []) (read_cache_file (snd out)) in
  translation_cache restarted = translation_cache (snd out)
  /\ translate later restarted text L style ctx again = (fst out, restarted).
Proof.
  intros Hclient Hw Hmiss Hk Hfail Hok out restarted.
  destruct (attempts_first_success svc create (build_request svc text L style ctx)
              (get_cache_key text L style ctx) max_retries (Z.to_nat max_retries)
              k 0%Z st content) as (H1 & H2 & _ & _ & H5);
    try assumption; try lia.
  assert (Hout : out = attempts svc create (build_request svc text L style ctx)
                         (get_cache_key text L style ctx) max_retries
                         (Z.to_nat max_retries) 0%Z st).
  { unfold out, translate. now rewrite Hmiss, Hclient. }
  rewrite <- Hout in H1, H2, H5. specialize (H5 Hw).
  assert (Hr : translation_cache restarted = translation_cache (snd out)).
  { unfold restarted, read_cache_file. now rewrite H5. }
  split; [exact Hr|].
  unfold translate. rewrite Hr, H2, lookup_insert_eq. now rewrite H1.
Qed.

Lemma cache_survives_restart_witness :
  translate (Service None "gpt-4" 2000 Saved)
    (load_cache (State ∅ CacheAbsent 0 [] [] [])
       (read_cache_file
          (snd (translate (Service (Some (fun _ _ => Completed "Hola")) "gpt-4" 2000 Saved)
                  (State ∅ CacheAbsent 0 [] [] []) "Hello" "Spanish" "formal" "" 3))))
    "Hello" "Spanish" "formal" "" 3
  = (fst (translate (Service (Some (fun _ _ => Completed "Hola")) "gpt-4" 2000 Saved)
            (State ∅ CacheAbsent 0 [] [] []) "Hello" "Spanish" "formal" "" 3),
     load_cache (State ∅ CacheAbsent 0 [] [] [])
       (read_cache_file
          (snd (translate (Service (Some (fun _ _ => Completed "Hola")) "gpt-4" 2000 Saved)
                  (State ∅ CacheAbsent 0 [] [] []) "Hello" "Spanish" "formal" "" 3)))).
Proof.
  apply (cache_survives_restart
           (Service (Some (fun _ _ => Completed "Hola")) "gpt-4" 2000 Saved)
           (Service None "gpt-4" 2000 Saved)
           (fun _ _ => Completed "Hola") (State ∅ CacheAbsent 0 [] [] [])
           "Hello" "Spanish" "formal" "" 3 3 0 "Hola" eq_refl eq_refl
           (lookup_empty _) eq_refl).
  - intros i Hi. lia.
  - reflexivity.
Defined.

End CacheFacts.

(** ** [validate_translation]: hard failures and the range of the score *)

Module ValidationMore.

Import PyStr StrFacts TranslationService Spec.

Set Warnings "-inexact-float".

Lemma all_chars_rev (p : ascii -> bool) (s : string) :
  forall acc, all_chars p (rev_string acc s) = all_chars p s && all_chars p acc.
Proof.
  induction s as [|c s IH]; intros acc; simpl; [reflexivity|].
  rewrite IH. simpl. destruct (p c), (all_chars p s); reflexivity.
Qed.

Lemma rev_string_empty (s : string) : rev_string "" s = "" <-> s = "".
Proof.
  split; [|now intros ->].
  destruct s as [|c s]; [reflexivity|]. intros H. exfalso.
  revert H. apply TopicFacts.rev_string_nonempty. right. discriminate.
Qed.

Lemma lstrip_blank (s : string) : lstrip s = "" <-> all_chars is_space s = true.
Proof.
  induction s as [|c s IH]; simpl; [tauto|].
  destruct (is_space c); simpl; [exact IH|]. split; discriminate.
Qed.

Lemma all_space_lstrip (s : string) :
  all_chars is_space (lstrip s) = all_chars is_space s.
Proof.
  induction s as [|c s IH]; simpl; [reflexivity|].
  destruct (is_space c) eqn:E; simpl; [exact IH | now rewrite E].
Qed.

(** [s.strip() == ''] holds exactly for the strings made of whitespace. *)
Lemma strip_blank (s : string) : strip s = "" <-> all_chars is_space s = true.
Proof.
  unfold strip, rstrip. rewrite rev_string_empty, lstrip_blank, all_chars_rev.
  simpl. rewrite andb_true_r. now rewrite all_space_lstrip.
Qed.

Lemma blank_not_error (t : string) :
  startswith t "[ERROR:" = true -> all_chars is_space t = false.
Proof.
  intros H. apply startswith_inv in H as [r ->]. reflexivity.
Qed.

Lemma validate_translation_hard_failures_facts (original translated L : string) :
  (validate_translation original translated L
   = Validation false [] ["Translation is empty"] 0%float
   <-> all_chars is_space translated = true)
  /\ (validate_translation original translated L
      = Validation false [] ["Translation contains error message"] 0%float
      <-> startswith translated "[ERROR:" = true)
  /\ (all_chars is_space translated = false ->
      startswith translated "[ERROR:" = false ->
      is_valid (validate_translation original translated L) = true
      /\ errors (validate_translation original translated L) = []).
Proof.
  assert (Hblank : (String.eqb translated "" || String.eqb (strip translated) "")
                   = all_chars is_space translated).
  { destruct (all_chars is_space translated) eqn:E.
    - apply strip_blank in E. rewrite E. apply orb_true_r.
    - apply orb_false_iff. split; apply String.eqb_neq; intros H.
      + subst. discriminate.
      + apply strip_blank in H. congruence. }
  assert (Hsoft : all_chars is_space translated = false ->
                  startswith translated "[ERROR:" = false ->
                  is_valid (validate_translation original translated L) = true
                  /\ errors (validate_translation original translated L) = []).
  { intros Hb He. unfold validate_translation. rewrite Hblank, Hb, He.
    cbn [floor_score is_valid errors].
    rewrite (proj1 (ValidationFacts.check_unchanged_valid _ _ _)),
      (proj2 (ValidationFacts.check_unchanged_valid _ _ _)),
      (proj1 (ValidationFacts.check_length_valid _ _ _)),
      (proj2 (ValidationFacts.check_length_valid _ _ _)),
      (proj1 (ValidationFacts.check_placeholders_valid _ _ _)),
      (proj2 (ValidationFacts.check_placeholders_valid _ _ _)).
    now split. }
  split; [|split; [|exact Hsoft]].
  - split.
    + intros H. destruct (all_chars is_space translated) eqn:Hb; [reflexivity|].
      destruct (startswith translated "[ERROR:") eqn:He.
      * unfold validate_translation in H. rewrite Hblank, He in H. discriminate.
      * destruct (Hsoft eq_refl eq_refl) as [Hv _]. rewrite H in Hv. discriminate.
    + intros Hb. unfold validate_translation. now rewrite Hblank, Hb.
  - split.
    + intros H. destruct (startswith translated "[ERROR:") eqn:He; [reflexivity|].
      destruct (all_chars is_space translated) eqn:Hb.
      * unfold validate_translation in H. rewrite Hblank in H. discriminate.
      * destruct (Hsoft eq_refl eq_refl) as [Hv _]. rewrite H in Hv. discriminate.
    + intros He. unfold validate_translation.
      now rewrite Hblank, (blank_not_error _ He), He.
Qed.

(** X4: the two hard failures of [validate_translation].  For any text,
    the result is the "Translation contains error message" failure exactly
    when [translated] starts with ["[ERROR:"].  For an ASCII text, the
    result is the "Translation is empty" failure exactly when [translated]
    consists of whitespace only (the empty string included), and a text
    that is neither blank nor an error message is valid and has no
    error. *)
Theorem validate_translation_hard_failures (original translated L : string) :
  (validate_translation original translated L
   = Validation false [] ["Translation contains error message"] 0%float
   <-> startswith translated "[ERROR:" = true)
  /\ (is_ascii translated = true ->
      (validate_translation original translated L
       = Validation false [] ["Translation is empty"] 0%float
       <-> all_chars is_space translated = true))
  /\ (is_ascii translated = true ->
      all_chars is_space translated = false ->
      startswith translated "[ERROR:" = false ->
      is_valid (validate_translation original translated L) = true
      /\ errors (validate_translation original translated L) = []).
Proof.
  destruct (validate_translation_hard_failures_facts original translated L)
    as (Hempty & Herror & Hsoft).
  split; [exact Herror|]. split; [intros _; exact Hempty|].
  intros _. exact Hsoft.
Qed.

(** X5: a translation that failed is always flagged.  When the backend
    fails on every attempt, the text [translate] returns is rejected by
    [validate_translation]: not valid, score 0, one error, no warning. *)
Theorem failed_translation_is_flagged (svc : service) (create : backend) (st : state)
  (text L style ctx : string) (max_retries : Z) :
  client svc = Some create ->
  translation_cache st !! get_cache_key text L style ctx = None ->
  (forall i, (i < Z.to_nat max_retries)%nat ->
     exists e, create (calls st + i)%nat (build_request svc text L style ctx) = Raised e) ->
  validate_translation text (fst (translate svc st text L style ctx max_retries)) L
  = Validation false [] ["Translation contains error message"] 0%float.
Proof.
  intros Hclient Hmiss Hfail.
  apply validate_translation_hard_failures_facts.
  unfold translate. rewrite Hmiss, Hclient.
  apply (RetryFacts.attempts_all_fail svc create
           (build_request svc text L style ctx) (get_cache_key text L style ctx)
           max_retries (Z.to_nat max_retries) 0%Z st); [lia | exact Hfail].
Qed.

Lemma failed_translation_is_flagged_witness :
  validate_translation "Pay now"
    (fst (translate (Service (Some (fun _ _ => Raised "timeout")) "gpt-4" 2000 Saved)
            (State ∅ CacheAbsent 0 [] [] []) "Pay now" "Spanish" "formal" "" 3))
    "Spanish"
  = Validation false [] ["Translation contains error message"] 0%float.
Proof.
  apply (failed_translation_is_flagged
           (Service (Some (fun _ _ => Raised "timeout")) "gpt-4" 2000 Saved)
           (fun _ _ => Raised "timeout") (State ∅ CacheAbsent 0 [] [] [])
           "Pay now" "Spanish" "formal" "" 3 eq_refl (lookup_empty _)).
  intros i _. now exists "timeout".
Defined.

(** X6: the score of [validate_translation] stays in range.  It is 0 for
    an invalid translation and between 0.4 and 1 for a valid one, so the
    floor at 0 never applies; at most three warnings are given. *)
Theorem validate_translation_score_range (original translated L : string) :
  let r := validate_translation original translated L in
  PrimFloat.leb 0 (score r) = true
  /\ PrimFloat.leb (score r) 1 = true
  /\ (is_valid r = false -> score r = 0%float /\ warnings r = [])
  /\ (is_valid r = true -> PrimFloat.leb 0.4 (score r) = true)
  /\ (length (warnings r) <= 3)%nat.
Proof.
  cbv zeta. unfold validate_translation.
  destruct (_ || _); [repeat split; try reflexivity; try discriminate; cbn; lia|].
  destruct (startswith translated "[ERROR:");
    [repeat split; try reflexivity; try discriminate; cbn; lia|].
  unfold check_placeholders, check_length, check_unchanged, floor_score.
  destruct (lists_differ _ _), (_ || _), (String.eqb _ _);
    cbn [is_valid warnings errors score length app];
    (split; [vm_compute; reflexivity|]);
    (split; [vm_compute; reflexivity|]);
    (split; [discriminate|]);
    (split; [intros _; vm_compute; reflexivity | lia]).
Qed.

Lemma mock_not_blank (text L style : string) :
  all_chars is_space (_mock_translate text L style) = false
  /\ startswith (_mock_translate text L style) "[ERROR:" = false.
Proof.
  unfold _mock_translate. cbn [PyDict.get].
  destruct (String.eqb style "formal"); [now split|].
  destruct (String.eqb style "conversational"); [now split|].
  destruct (String.eqb style "chatbot"); now split.
Qed.

(** X7: without a backend [translate] answers a request that is not
    cached with the mock translation, leaves the state as it was (nothing
    is cached), and the mock translation is never a hard validation
    failure. *)
Theorem mock_translation_is_valid (svc : service) (st : state)
  (text L style ctx : string) (max_retries : Z) :
  client svc = None ->
  translation_cache st !! get_cache_key text L style ctx = None ->
  translate svc st text L style ctx max_retries
  = (_mock_translate text L style, st)
  /\ is_valid (validate_translation text (_mock_translate text L style) L) = true
  /\ errors (validate_translation text (_mock_translate text L style) L) = [].
Proof.
  intros Hclient Hmiss. split.
  - unfold translate. now rewrite Hmiss, Hclient.
  - destruct (mock_not_blank text L style) as [Hb He].
    now apply validate_translation_hard_failures_facts.
Qed.

Lemma mock_translation_is_valid_witness :
  translate (Service None "gpt-4" 2000 Saved) (State ∅ CacheAbsent 0 [] [] [])
    "Pay now" "Spanish" "chatbot" "" 3
  = (_mock_translate "Pay now" "Spanish" "chatbot", State ∅ CacheAbsent 0 [] [] []).
Proof.
  apply (mock_translation_is_valid (Service None "gpt-4" 2000 Saved)
           (State ∅ CacheAbsent 0 [] [] []) "Pay now" "Spanish" "chatbot" "" 3
           eq_refl (lookup_empty _)).
Defined.

End ValidationMore.

(** ** [_extract_placeholders]: what a placeholder is *)

Module PlaceholderFacts.

Import PyStr StrFacts Regex TranslationService Spec.

(** Whatever a greedy run leaves to the rest of the pattern, it has
    consumed characters of the set only. *)
Lemma star_sound {A : Type} (cs : cset) (s : string) (k : string -> option A) (x : A) :
  star cs s k = Some x ->
  exists run rest, s = run +:+ rest /\ all_chars (mem cs) run = true /\ k rest = Some x.
Proof.
  induction s as [|c s IH]; cbn [star]; intros H.
  - now exists "", "".
  - destruct (mem cs c) eqn:Hc; [|now exists "", (String c s)].
    destruct (star cs s k) as [y|] eqn:Hs; [|now exists "", (String c s)].
    injection H as ->. destruct (IH eq_refl) as (run & rest & -> & Hrun & Hk).
    exists (String c run), rest. cbn [all_chars]. now rewrite Hc, Hrun.
Qed.

Lemma no_brace_chars (body : string) :
  all_chars (mem (NoneOf "}")) body = true <-> contains "}" body = false.
Proof.
  induction body as [|c body IH]; [now split|].
  cbn [all_chars]. rewrite contains_char_cons.
  unfold mem at 1. cbn [char_in]. rewrite orb_false_r, Ascii.eqb_sym.
  destruct (Ascii.eqb "}" c); cbn; [split; discriminate | exact IH].
Qed.

(** Where the placeholder pattern matches, the text starts with an opening
    brace, a non-empty body without closing brace, and a closing brace. *)
Lemma match_at_placeholder (s : string) (m : rmatch_obj) :
  match_at placeholder s = Some m ->
  exists body rest,
    s = "{" +:+ body +:+ "}" +:+ rest
    /\ body <> "" /\ contains "}" body = false
    /\ whole m = "{" +:+ body +:+ "}".
Proof.
  unfold match_at, placeholder. cbn [rmatch].
  destruct (strip_prefix "{" s) as [s1|] eqn:E1; [|discriminate].
  apply strip_prefix_Some in E1. subst s.
  destruct s1 as [|c s1]; [discriminate|].
  destruct (mem (NoneOf "}") c) eqn:Hc; [|discriminate].
  intros H. apply star_sound in H as (run & rest & -> & Hrun & H).
  destruct (strip_prefix "}" rest) as [rest'|] eqn:E2; [|discriminate].
  apply strip_prefix_Some in E2. subst rest. injection H as <-.
  exists (String c run), rest'. split; [reflexivity|]. split; [discriminate|]. split.
  - apply no_brace_chars. cbn [all_chars]. now rewrite Hc, Hrun.
  - cbn [whole].
    assert (E : String "{" (String c (run +:+ String "}" rest'))
                = ("{" +:+ String c run +:+ "}") +:+ rest').
    { cbn [String.append]. do 2 f_equal. now rewrite append_assoc. }
    rewrite E. apply TopicFacts.consumed_append.
Qed.

(** Every item [findall] returns is a match of the pattern somewhere in the
    text. *)
Lemma findall_sound (r : re) (s : string) :
  forall (skip : nat) (p : string),
    In p (findall_aux r s skip) ->
    exists pre s' m, s = pre +:+ s' /\ match_at r s' = Some m /\ whole m = p.
Proof.
  induction s as [|c s IH]; intros skip p H.
  - destruct skip; [|destruct H].
    cbn [findall_aux] in H.
    destruct (match_at r "") as [m|] eqn:E; [|destruct H].
    destruct H as [<-|[]]. now exists "", "", m.
  - destruct skip as [|skip]; cbn [findall_aux] in H.
    + destruct (match_at r (String c s)) as [m|] eqn:E.
      * destruct H as [<-|H]; [now exists "", (String c s), m|].
        destruct (IH _ _ H) as (pre & s' & m' & -> & Hm & Hw).
        now exists (String c pre), s', m'.
      * destruct (IH _ _ H) as (pre & s' & m' & -> & Hm & Hw).
        now exists (String c pre), s', m'.
    + destruct (IH _ _ H) as (pre & s' & m' & -> & Hm & Hw).
      now exists (String c pre), s', m'.
Qed.

Lemma contains_skip (sub x y : string) :
  contains sub y = true -> contains sub (x +:+ y) = true.
Proof.
  intros H. induction x as [|c x IH]; [exact H|].
  cbn [String.append contains]. rewrite IH. apply orb_true_r.
Qed.

(** X8: every placeholder [_extract_placeholders] returns is a piece of the
    text of the form [{body}] with a non-empty body that holds no closing
    brace; a text without opening brace, or without closing brace, has no
    placeholder. *)
Theorem extract_placeholders_wellformed (text : string) :
  (forall p, In p (_extract_placeholders text) ->
     exists body,
       p = "{" +:+ body +:+ "}" /\ body <> "" /\ contains "}" body = false
       /\ contains p text = true)
  /\ (contains "{" text = false -> _extract_placeholders text = [])
  /\ (contains "}" text = false -> _extract_placeholders text = []).
Proof.
  assert (Hsound : forall p, In p (_extract_placeholders text) ->
            exists body,
              p = "{" +:+ body +:+ "}" /\ body <> "" /\ contains "}" body = false
              /\ contains p text = true).
  { intros p Hp. apply findall_sound in Hp as (pre & s' & m & -> & Hm & <-).
    apply match_at_placeholder in Hm as (body & rest & -> & Hne & Hb & ->).
    exists body. repeat split; try assumption.
    replace (pre +:+ "{" +:+ body +:+ "}" +:+ rest)
      with (pre +:+ ("{" +:+ body +:+ "}") +:+ rest)
      by (now rewrite !append_assoc).
    apply contains_append. }
  split; [exact Hsound|]. split; intros Hno.
  - destruct (_extract_placeholders text) as [|p l] eqn:E; [reflexivity|].
    destruct (Hsound p ltac:(now left)) as (body & -> & _ & _ & Hin).
    apply contains_spec in Hin as (a & b & Htext).
    rewrite Htext in Hno.
    rewrite (append_assoc "{" (body +:+ "}") b), contains_append in Hno.
    discriminate.
  - destruct (_extract_placeholders text) as [|p l] eqn:E; [reflexivity|].
    destruct (Hsound p ltac:(now left)) as (body & -> & _ & _ & Hin).
    apply contains_spec in Hin as (a & b & Htext).
    rewrite Htext in Hno.
    replace (a +:+ ("{" +:+ body +:+ "}") +:+ b)
      with ((a +:+ "{" +:+ body) +:+ "}" +:+ b) in Hno.
    + rewrite contains_append in Hno. discriminate.
    + rewrite !append_assoc. reflexivity.
Qed.

End PlaceholderFacts.

(** ** [_build_translation_prompt]: what the request carries *)

Module PromptFacts.

Import PyStr StrFacts TranslationService.

Lemma contains_here (sub rest : string) : contains sub (sub +:+ rest) = true.
Proof. exact (contains_append sub "" rest). Qed.

(** X9: the prompt names the target language in its first sentence,
    quotes the text to translate, carries the context line when a context
    is given, and is the formal prompt for a style that is not one of
    formal, conversational, chatbot. *)
Theorem prompt_contents (text L style ctx : string) :
  startswith (_build_translation_prompt text L style ctx)
             ("Translate the following text to " +:+ L +:+ ".") = true
  /\ contains (dquote +:+ text +:+ dquote)
              (_build_translation_prompt text L style ctx) = true
  /\ (ctx <> "" ->
      contains ("Specific context: " +:+ ctx +:+ nl)
               (_build_translation_prompt text L style ctx) = true)
  /\ (style <> "formal" -> style <> "conversational" -> style <> "chatbot" ->
      _build_translation_prompt text L style ctx
      = _build_translation_prompt text L "formal" ctx).
Proof.
  split; [|split; [|split]].
  - unfold _build_translation_prompt. cbv zeta.
    destruct (negb (String.eqb ctx ""));
      rewrite !append_assoc;
      match goal with
      | |- startswith (?T +:+ ?l +:+ "." +:+ ?Z) _ = true =>
          replace (T +:+ l +:+ "." +:+ Z) with ((T +:+ l +:+ ".") +:+ Z)
            by (now rewrite !append_assoc)
      end;
      apply startswith_append.
  - unfold _build_translation_prompt. cbv zeta.
    repeat match goal with
           | |- contains _ (?x +:+ _) = true =>
               lazymatch x with
               | dquote => fail
               | _ => apply PlaceholderFacts.contains_skip
               end
           end.
    match goal with
    | |- contains _ (dquote +:+ text +:+ dquote +:+ ?Z) = true =>
        replace (dquote +:+ text +:+ dquote +:+ Z)
          with ((dquote +:+ text +:+ dquote) +:+ Z)
          by (now rewrite !append_assoc)
    end.
    apply contains_here.
  - intros Hctx. unfold _build_translation_prompt. cbv zeta.
    apply String.eqb_neq in Hctx. rewrite Hctx. cbn [negb].
    rewrite !append_assoc.
    repeat match goal with
           | |- contains _ (?x +:+ _) = true =>
               lazymatch x with
               | "Specific context: " => fail
               | _ => apply PlaceholderFacts.contains_skip
               end
           end.
    match goal with
    | |- contains _ (?S +:+ ctx +:+ nl +:+ ?Z) = true =>
        replace (S +:+ ctx +:+ nl +:+ Z) with ((S +:+ ctx +:+ nl) +:+ Z)
          by (now rewrite !append_assoc)
    end.
    apply contains_here.
  - intros H1 H2 H3. unfold _build_translation_prompt.
    apply String.eqb_neq in H1, H2, H3.
    cbn [PyDict.get style_templates]. now rewrite H1, H2, H3.
Qed.

End PromptFacts.

(** ** [export_file] with translations, [on_translation_edit],
       [_is_global_variable] *)

Module ExportMore.

Import PyStr StrFacts LocalizationParser App Spec ExportFacts.

Lemma get_set_same {V : Type} (d : PyDict.dict V) (k : string) (v : V) :
  PyDict.get (PyDict.set d k v) k = Some v.
Proof.
  induction d as [|[k' v'] d IH]; cbn [PyDict.set PyDict.get].
  - now rewrite String.eqb_refl.
  - destruct (String.eqb k k') eqn:E; cbn [PyDict.get]; rewrite E; [reflexivity|exact IH].
Qed.

Lemma get_set_other {V : Type} (d : PyDict.dict V) (k k' : string) (v : V) :
  k' <> k -> PyDict.get (PyDict.set d k v) k' = PyDict.get d k'.
Proof.
  intros Hne. induction d as [|[k0 v0] d IH]; cbn [PyDict.set PyDict.get].
  - apply String.eqb_neq in Hne. now rewrite Hne.
  - destruct (String.eqb k k0) eqn:E; cbn [PyDict.get].
    + apply String.eqb_eq in E. subst k0.
      apply String.eqb_neq in Hne. now rewrite Hne.
    + now rewrite IH.
Qed.

Lemma has_key_false {V : Type} (d : PyDict.dict V) (k : string) :
  PyDict.has_key d k = false <-> ~ In k (PyDict.keys d).
Proof.
  unfold PyDict.has_key.
  induction d as [|[k' v'] d IH]; cbn [PyDict.get PyDict.keys map fst In]; [tauto|].
  destruct (String.eqb k k') eqn:E.
  - apply String.eqb_eq in E. subst. split; [discriminate|]. intros H. exfalso. apply H. now left.
  - apply String.eqb_neq in E. rewrite IH. split.
    + intros H [H'|H']; [congruence|contradiction].
    + intros H H'. apply H. now right.
Qed.

(** The first export loop maps every original entry to its exported value,
    in order. *)
Lemma export_originals_map (lang : string)
  (tr : PyDict.dict (PyDict.dict string)) (items : PyDict.dict entry)
  (acc : PyDict.dict json) :
  NoDup (PyDict.keys items) ->
  (forall k, In k (PyDict.keys items) -> ~ In k (PyDict.keys acc)) ->
  export_originals lang tr items acc
  = acc ++ map (fun kv => (fst kv, exported_value lang tr (fst kv) (snd kv))) items.
Proof.
  revert acc. induction items as [|[k e] items IH]; intros acc Hnd Hfresh;
    cbn [export_originals map].
  - now rewrite app_nil_r.
  - inversion Hnd as [|? ? Hk Hnd']; subst.
    rewrite set_fresh by (apply Hfresh; now left).
    rewrite IH; [|assumption|].
    + rewrite <- app_assoc. cbn [Datatypes.app fst snd]. do 3 f_equal.
      unfold exported_value, nonempty_translation.
      destruct (PyDict.get tr k) as [m|]; [|reflexivity].
      destruct (PyDict.get m lang) as [t|]; [|reflexivity].
      now destruct (String.eqb t "").
    + intros k' Hk' Hin. rewrite keys_app in Hin.
      apply in_app_or in Hin as [Hin|[<-|[]]].
      * apply (Hfresh k'); [now right|assumption].
      * apply Hk, list_elem_of_In. exact Hk'.
Qed.

(** The second loop only appends: keys that are not there yet, each with a
    non-empty translation into the current language. *)
Lemma export_extras_appends (lang : string)
  (items : PyDict.dict (PyDict.dict string)) :
  forall d : PyDict.dict json,
    exists extras : PyDict.dict json,
      export_extras lang items d = d ++ extras
      /\ Forall (fun kv =>
                   ~ In (fst kv) (PyDict.keys d)
                   /\ exists lang_map t,
                        In (fst kv, lang_map) items
                        /\ PyDict.get lang_map lang = Some t
                        /\ t <> "" /\ snd kv = JStr t) extras.
Proof.
  induction items as [|[key lang_map] rest IH]; intros d; cbn [export_extras].
  - exists []. now rewrite app_nil_r.
  - assert (Hweak : forall d' extras : PyDict.dict json,
               (forall k, In k (PyDict.keys d) -> In k (PyDict.keys d')) ->
               Forall (fun kv =>
                         ~ In (fst kv) (PyDict.keys d')
                         /\ exists lang_map0 t,
                              In (fst kv, lang_map0) rest
                              /\ PyDict.get lang_map0 lang = Some t
                              /\ t <> "" /\ snd kv = JStr t) extras ->
               Forall (fun kv =>
                         ~ In (fst kv) (PyDict.keys d)
                         /\ exists lang_map0 t,
                              In (fst kv, lang_map0) ((key, lang_map) :: rest)
                              /\ PyDict.get lang_map0 lang = Some t
                              /\ t <> "" /\ snd kv = JStr t) extras).
    { intros d' extras Hsub HF. eapply Forall_impl; [exact HF|].
      intros kv (Hnot & m & t & Hin & Hget & Hne & Hv). split.
      - intros H. apply Hnot, Hsub, H.
      - exists m, t. repeat split; try assumption. now right. }
    destruct (negb (PyDict.has_key d key)) eqn:Hhas; cbn [negb].
    + apply negb_true_iff, has_key_false in Hhas.
      unfold nonempty_translation.
      destruct (PyDict.get lang_map lang) as [t|] eqn:Hget.
      * destruct (String.eqb t "") eqn:Et.
        -- destruct (IH d) as (extras & Hres & HF). exists extras.
           split; [exact Hres|]. now apply (Hweak d).
        -- rewrite set_fresh by exact Hhas.
           destruct (IH (d ++ [(key, JStr t)])) as (extras & Hres & HF).
           exists ((key, JStr t) :: extras). split.
           ++ rewrite Hres, <- app_assoc. reflexivity.
           ++ constructor.
              ** split; [exact Hhas|]. exists lang_map, t.
                 apply String.eqb_neq in Et. repeat split; try assumption. now left.
              ** apply (Hweak (d ++ [(key, JStr t)])); [|exact HF].
                 intros k Hk. rewrite keys_app. apply in_or_app. now left.
      * destruct (IH d) as (extras & Hres & HF). exists extras.
        split; [exact Hres|]. now apply (Hweak d).
    + destruct (IH d) as (extras & Hres & HF). exists extras.
      split; [exact Hres|]. now apply (Hweak d).
Qed.

Lemma keys_exported (lang : string) (tr : PyDict.dict (PyDict.dict string))
  (items : PyDict.dict entry) :
  PyDict.keys (map (fun kv => (fst kv, exported_value lang tr (fst kv) (snd kv))) items)
  = PyDict.keys items.
Proof. unfold PyDict.keys. rewrite map_map. reflexivity. Qed.

Lemma export_file_contents_facts (a : app) (file_path : string) :
  localization_data a <> [] ->
  NoDup (PyDict.keys (localization_data a)) ->
  file_path <> "" ->
  exists extras : PyDict.dict json,
    export_file a file_path true
    = Written file_path
        (map (fun kv => (fst kv,
                         exported_value (App.target_language a) (translated_data a)
                                        (fst kv) (snd kv)))
             (localization_data a)
         ++ extras)
    /\ Forall (fun kv =>
                 ~ In (fst kv) (PyDict.keys (localization_data a))
                 /\ exists lang_map t,
                      In (fst kv, lang_map) (translated_data a)
                      /\ PyDict.get lang_map (App.target_language a) = Some t
                      /\ t <> "" /\ snd kv = JStr t) extras.
Proof.
  intros Hne Hnd Hpath. unfold export_file.
  destruct (localization_data a) as [|kv items] eqn:Hdata; [contradiction|].
  cbn [is_empty]. apply String.eqb_neq in Hpath. rewrite Hpath.
  rewrite export_originals_map by (auto; intros k _ []).
  rewrite app_nil_l.
  destruct (export_extras_appends (App.target_language a) (translated_data a)
              (map (fun kv0 => (fst kv0,
                                exported_value (App.target_language a)
                                  (translated_data a) (fst kv0) (snd kv0)))
                   (kv :: items)))
    as (extras & Hres & HF).
  exists extras. rewrite Hres. split; [reflexivity|].
  now rewrite keys_exported in HF.
Qed.

(** X10: what [export_file] writes.  With a source loaded and a path
    chosen, the export holds the original keys first, in their original
    order, each with its translation into the current language when there
    is a non-empty one and with its original text otherwise; after them
    come only keys that are not original keys, each with a non-empty
    translation into the current language. *)
Theorem export_file_contents (a : app) (file_path : string) :
  localization_data a <> [] ->
  NoDup (PyDict.keys (localization_data a)) ->
  file_path <> "" ->
  exists extras : PyDict.dict json,
    export_file a file_path true
    = Written file_path
        (map (fun kv => (fst kv,
                         exported_value (App.target_language a) (translated_data a)
                                        (fst kv) (snd kv)))
             (localization_data a)
         ++ extras)
    /\ Forall (fun kv =>
                 ~ In (fst kv) (PyDict.keys (localization_data a))
                 /\ exists lang_map t,
                      In (fst kv, lang_map) (translated_data a)
                      /\ PyDict.get lang_map (App.target_language a) = Some t
                      /\ t <> "" /\ snd kv = JStr t) extras.
Proof. exact (export_file_contents_facts a file_path). Qed.

Lemma export_file_contents_witness :
  exists extras : PyDict.dict json,
    export_file
      (Application
         [("'dialog(topic.Billing).Card.1.text",
           parse_entry "'dialog(topic.Billing).Card.1.text" (JStr "Pay now"))]
         [("'dialog(topic.Billing).Card.1.text", [("Spanish", "Pagar ahora")]);
          ("extra.key", [("Spanish", "Extra")])]
         "Spanish")
      "out.json" true
    = Written "out.json"
        ([("'dialog(topic.Billing).Card.1.text", JStr "Pagar ahora")] ++ extras).
Proof.
  destruct (export_file_contents
              (Application
                 [("'dialog(topic.Billing).Card.1.text",
                   parse_entry "'dialog(topic.Billing).Card.1.text" (JStr "Pay now"))]
                 [("'dialog(topic.Billing).Card.1.text", [("Spanish", "Pagar ahora")]);
                  ("extra.key", [("Spanish", "Extra")])]
                 "Spanish")
              "out.json") as (extras & H & _).
  - discriminate.
  - apply (bool_decide_unpack _). vm_compute. exact I.
  - discriminate.
  - exists extras. exact H.
Defined.

(** X11: a manual edit shows in the export.  After
    [on_translation_edit key new_translation], the export gives [key] the
    edited text, or the original text when the edit is empty, and gives
    every other original key the value it had before the edit. *)
Theorem edit_then_export (a : app) (key new_translation file_path : string) :
  localization_data a <> [] ->
  NoDup (PyDict.keys (localization_data a)) ->
  file_path <> "" ->
  exists extras : PyDict.dict json,
    export_file (on_translation_edit a key new_translation) file_path true
    = Written file_path
        (map (fun kv =>
                (fst kv,
                 if String.eqb (fst kv) key
                 then (if String.eqb new_translation "" then text (snd kv)
                       else JStr new_translation)
                 else exported_value (App.target_language a) (translated_data a)
                                     (fst kv) (snd kv)))
             (localization_data a)
         ++ extras).
Proof.
  intros Hne Hnd Hpath.
  destruct (export_file_contents_facts (on_translation_edit a key new_translation)
              file_path Hne Hnd Hpath) as (extras & H & _).
  exists extras. rewrite H. f_equal. f_equal.
  apply map_ext. intros [k e]. cbn [fst snd]. f_equal.
  unfold exported_value, on_translation_edit.
  cbn [translated_data App.target_language].
  destruct (String.eqb k key) eqn:E.
  - apply String.eqb_eq in E. subst k.
    now rewrite get_set_same, get_set_same.
  - apply String.eqb_neq in E. now rewrite get_set_other.
Qed.

Lemma edit_then_export_witness :
  exists extras : PyDict.dict json,
    export_file
      (on_translation_edit
         (Application
            [("'dialog(topic.Billing).Card.1.text",
              parse_entry "'dialog(topic.Billing).Card.1.text" (JStr "Pay now"))]
            [] "Spanish")
         "'dialog(topic.Billing).Card.1.text" "Pague ahora")
      "out.json" true
    = Written "out.json"
        ([("'dialog(topic.Billing).Card.1.text", JStr "Pague ahora")] ++ extras).
Proof.
  destruct (edit_then_export
              (Application
                 [("'dialog(topic.Billing).Card.1.text",
                   parse_entry "'dialog(topic.Billing).Card.1.text" (JStr "Pay now"))]
                 [] "Spanish")
              "'dialog(topic.Billing).Card.1.text" "Pague ahora" "out.json")
    as (extras & H).
  - discriminate.
  - apply (bool_decide_unpack _). vm_compute. exact I.
  - discriminate.
  - exists extras. exact H.
Defined.

(** X12: which entries the table hides.  For an entry as the parser
    classifies it, [_is_global_variable] holds exactly when the key
    contains ['globalVariable(] or [.GlobalVariables.] or the topic is
    ["Global Variables"]: the test on the UI component never decides, since
    the component is ["GlobalVariable"] only for keys with the marker.  No
    visible entry has the marker. *)
Theorem is_global_variable_parsed (key : string) (value : json) :
  _is_global_variable key (parse_entry key value)
  = (contains "'globalVariable(" key
     || contains ".GlobalVariables." key
     || String.eqb (extract_topic key) "Global Variables")
  /\ (extract_ui_component key = "GlobalVariable" ->
      contains "'globalVariable(" key = true)
  /\ (forall a k e, In (k, e) (visible_localization_data a) ->
        contains "'globalVariable(" k = false /\ In (k, e) (localization_data a)).
Proof.
  assert (Hcomp : extract_ui_component key = "GlobalVariable" ->
                  contains "'globalVariable(" key = true).
  { unfold extract_ui_component, components.
    cbn [first_component String.append].
    repeat match goal with
           | |- context [if ?b then _ else _] =>
               destruct b eqn:?; [try discriminate; try reflexivity|]
           end.
    discriminate. }
  split; [|split; [exact Hcomp|]].
  - unfold _is_global_variable. cbn [topic ui_component parse_entry].
    destruct (contains "'globalVariable(" key) eqn:E1; [reflexivity|].
    destruct (contains ".GlobalVariables." key); [reflexivity|].
    destruct (String.eqb (extract_topic key) "Global Variables"); [reflexivity|].
    destruct (String.eqb (extract_ui_component key) "GlobalVariable") eqn:E4;
      [|reflexivity].
    apply String.eqb_eq in E4. apply Hcomp in E4. congruence.
  - intros a k e Hin. unfold visible_localization_data in Hin.
    apply filter_In in Hin as [Hin Hvis]. split; [|exact Hin].
    cbn [fst snd] in Hvis. apply negb_true_iff in Hvis.
    unfold _is_global_variable in Hvis.
    now destruct (contains "'globalVariable(" k).
Qed.

End ExportMore.

(** ** The classified record: closed tag sets, the description *)

Module RecordFacts.

Import PyStr StrFacts LocalizationParser.

(** X13: the record of an entry stays within the closed tag sets.  For
    every key, the UI component is one of the eleven tags and the element
    type one of the five; the text is the value, verbatim; the description
    is never empty. *)
Theorem parse_entry_tags (key : string) (value : json) :
  In (ui_component (parse_entry key value))
     ["Card"; "Activity"; "Prompt"; "Entity"; "Intent"; "Dialog";
      "GlobalVariable"; "KnowledgeSourceComponent"; "KnowledgeSource";
      "DialogDisplayName"; "Unknown"]
  /\ In (element_type (parse_entry key value))
        ["text"; "title"; "DisplayName"; "TriggerQueries"; "Description"]
  /\ text (parse_entry key value) = value
  /\ description (parse_entry key value) <> "".
Proof.
  cbn [ui_component element_type text description parse_entry].
  split; [|split; [|split; [reflexivity|]]].
  - unfold extract_ui_component, components.
    cbn [first_component String.append].
    repeat match goal with
           | |- context [if ?b then _ else _] => destruct b; [cbn; tauto|]
           end.
    cbn; tauto.
  - unfold extract_element_type, elements.
    cbn [first_element String.append].
    repeat match goal with
           | |- context [if ?b then _ else _] => destruct b; [cbn; tauto|]
           end.
    cbn; tauto.
  - unfold generate_description. cbv zeta.
    destruct (negb (String.eqb (extract_topic key) "Unknown Topic")),
      (negb (String.eqb (extract_ui_component key) "Unknown")),
      (negb (String.eqb (extract_element_type key) "text")),
      (PyDict.get (extract_context key) "action_type") as [action|];
      try (destruct (startswith action "question_"),
             (startswith action "sendActivity_"),
             (startswith action "sendMessage_"));
      cbn; discriminate.
Qed.

Lemma startswith_self (s : string) : startswith s s = true.
Proof.
  unfold startswith.
  assert (H : strip_prefix s s = Some "")
    by (induction s as [|c s IH]; cbn; [reflexivity | now rewrite Ascii.eqb_refl]).
  now rewrite H.
Qed.

Lemma join_starts (sep x : string) (l : list string) :
  startswith (join sep (x :: l)) x = true.
Proof.
  destruct l; cbn [join]; [apply startswith_self | apply startswith_append].
Qed.

Lemma join_starts_two (sep x y : string) (l : list string) :
  startswith (join sep (x :: y :: l)) (x +:+ sep +:+ y) = true.
Proof.
  change (join sep (x :: y :: l)) with (x +:+ sep +:+ join sep (y :: l)).
  assert (H : exists r, join sep (y :: l) = y +:+ r).
  { destruct l as [|z l].
    - exists "". cbn [join]. induction y as [|c y IH]; cbn; now rewrite <- ?IH.
    - now exists (sep +:+ join sep (z :: l)). }
  destruct H as [r ->].
  replace (x +:+ sep +:+ y +:+ r) with ((x +:+ sep +:+ y) +:+ r)
    by (now rewrite !append_assoc).
  apply startswith_append.
Qed.

(** X14: how the description begins.  [generate_description] returns
    ["General localization entry"] exactly when the topic is unknown, the
    component is unknown, the element type is the default and the key has
    no action.  Otherwise the description starts with the first clause that
    applies: the topic clause when the topic is known, followed by the
    component clause when the component is known too; else the component
    clause when the component is known; else the element clause when the
    element type is not the default; else it is the type clause of the
    action, alone. *)
Theorem description_fallback (key : string) :
  (generate_description key = "General localization entry"
   <-> extract_topic key = "Unknown Topic"
       /\ extract_ui_component key = "Unknown"
       /\ extract_element_type key = "text"
       /\ PyDict.get (extract_context key) "action_type" = None)
  /\ (extract_topic key <> "Unknown Topic" ->
      startswith (generate_description key) ("Topic: " +:+ extract_topic key) = true)
  /\ (extract_topic key <> "Unknown Topic" ->
      extract_ui_component key <> "Unknown" ->
      startswith (generate_description key)
        (("Topic: " +:+ extract_topic key) +:+ " | "
         +:+ ("Component: " +:+ extract_ui_component key)) = true)
  /\ (extract_topic key = "Unknown Topic" ->
      extract_ui_component key <> "Unknown" ->
      startswith (generate_description key)
        ("Component: " +:+ extract_ui_component key) = true)
  /\ (extract_topic key = "Unknown Topic" ->
      extract_ui_component key = "Unknown" ->
      extract_element_type key <> "text" ->
      startswith (generate_description key)
        ("Element: " +:+ extract_element_type key) = true)
  /\ (extract_topic key = "Unknown Topic" ->
      extract_ui_component key = "Unknown" ->
      extract_element_type key = "text" ->
      forall action,
        PyDict.get (extract_context key) "action_type" = Some action ->
        generate_description key
        = if startswith action "question_" then "Type: Question"
          else if startswith action "sendActivity_" then "Type: Response"
          else if startswith action "sendMessage_" then "Type: Message"
          else "Type: " +:+ action).
Proof.
  unfold generate_description. cbv zeta. split; [|split; [|split; [|split; [|split]]]].
  - destruct (String.eqb (extract_topic key) "Unknown Topic") eqn:ET,
      (String.eqb (extract_ui_component key) "Unknown") eqn:EC,
      (String.eqb (extract_element_type key) "text") eqn:EE,
      (PyDict.get (extract_context key) "action_type") as [action|] eqn:EA;
      try (destruct (startswith action "question_"),
             (startswith action "sendActivity_"),
             (startswith action "sendMessage_"));
      cbn [negb app join String.append];
      (split; [try discriminate | try (intros (H1 & H2 & H3 & H4); try discriminate;
                                      try (apply String.eqb_neq in ET; contradiction);
                                      try (apply String.eqb_neq in EC; contradiction);
                                      try (apply String.eqb_neq in EE; contradiction))]).
    + intros _. apply String.eqb_eq in ET, EC, EE. now repeat split.
    + reflexivity.
  - intros HT. apply String.eqb_neq in HT. rewrite HT. cbn [negb app].
    destruct (negb (String.eqb (extract_ui_component key) "Unknown")),
      (negb (String.eqb (extract_element_type key) "text")),
      (PyDict.get (extract_context key) "action_type") as [action|];
      try (destruct (startswith action "question_"),
             (startswith action "sendActivity_"),
             (startswith action "sendMessage_"));
      cbn [app]; apply join_starts.
  - intros HT HC. apply String.eqb_neq in HT, HC. rewrite HT, HC. cbn [negb app].
    destruct (negb (String.eqb (extract_element_type key) "text")),
      (PyDict.get (extract_context key) "action_type") as [action|];
      try (destruct (startswith action "question_"),
             (startswith action "sendActivity_"),
             (startswith action "sendMessage_"));
      cbn [app]; apply join_starts_two.
  - intros HT HC. apply String.eqb_eq in HT. apply String.eqb_neq in HC.
    rewrite HT, HC. cbn [negb app].
    destruct (negb (String.eqb (extract_element_type key) "text")),
      (PyDict.get (extract_context key) "action_type") as [action|];
      try (destruct (startswith action "question_"),
             (startswith action "sendActivity_"),
             (startswith action "sendMessage_"));
      cbn [app]; apply join_starts.
  - intros HT HC HE. apply String.eqb_eq in HT, HC. apply String.eqb_neq in HE.
    rewrite HT, HC, HE. cbn [negb app].
    destruct (PyDict.get (extract_context key) "action_type") as [action|];
      try (destruct (startswith action "question_"),
             (startswith action "sendActivity_"),
             (startswith action "sendMessage_"));
      cbn [app]; apply join_starts.
  - intros HT HC HE action HA. apply String.eqb_eq in HT, HC, HE.
    rewrite HT, HC, HE, HA. cbn [negb app].
    destruct (startswith action "question_"),
      (startswith action "sendActivity_"),
      (startswith action "sendMessage_"); reflexivity.
Qed.

End RecordFacts.

(** ** Summaries and filters of the classified entries *)

Module SummaryFacts.

Import PyStr StrFacts LocalizationParser Spec ExportMore.

Lemma count_loop_get (field : entry -> string) (v : string)
  (items : PyDict.dict entry) :
  forall counts : PyDict.dict nat,
    PyDict.get (count_loop field items counts) v
    = match PyDict.get counts v, length (with_value field v items) with
      | None, O => None
      | None, S c => Some (S c)
      | Some n, c => Some (n + c)
      end.
Proof.
  induction items as [|[k e] items IH]; intros counts; cbn [count_loop].
  - cbn. destruct (PyDict.get counts v); [f_equal; lia | reflexivity].
  - rewrite IH. unfold with_value. cbn [List.filter snd].
    destruct (String.eqb (field e) v) eqn:E.
    + apply String.eqb_eq in E. subst v. rewrite get_set_same. cbn [length].
      destruct (PyDict.get counts (field e)); f_equal; lia.
    + apply String.eqb_neq in E. rewrite get_set_other by congruence. reflexivity.
Qed.

Lemma keys_set {V : Type} (d : PyDict.dict V) (k k' : string) (v : V) :
  In k' (PyDict.keys (PyDict.set d k v)) <-> k' = k \/ In k' (PyDict.keys d).
Proof.
  induction d as [|[k0 v0] d IH]; cbn [PyDict.set PyDict.keys map fst In].
  - intuition.
  - destruct (String.eqb k k0) eqn:E; cbn [PyDict.keys map fst In].
    + apply String.eqb_eq in E. subst. intuition.
    + fold (PyDict.keys (PyDict.set d k v)). rewrite IH.
      fold (PyDict.keys d). intuition.
Qed.

Lemma nodup_set {V : Type} (d : PyDict.dict V) (k : string) (v : V) :
  List.NoDup (PyDict.keys d) -> List.NoDup (PyDict.keys (PyDict.set d k v)).
Proof.
  induction d as [|[k0 v0] d IH]; cbn [PyDict.set PyDict.keys map fst]; intros H.
  - constructor; [intros []|constructor].
  - inversion H as [|? ? Hk Hd]; subst.
    destruct (String.eqb k k0) eqn:E; cbn [PyDict.keys map fst].
    + now constructor.
    + constructor; [|now apply IH].
      fold (PyDict.keys (PyDict.set d k v)). rewrite keys_set.
      apply String.eqb_neq in E. intros [->|Hin]; [congruence|contradiction].
Qed.

Lemma nodup_count_loop (field : entry -> string) (items : PyDict.dict entry) :
  forall counts, List.NoDup (PyDict.keys counts) ->
                 List.NoDup (PyDict.keys (count_loop field items counts)).
Proof.
  induction items as [|[k e] items IH]; intros counts H; cbn [count_loop];
    [exact H | now apply IH, nodup_set].
Qed.

Lemma sum_set (d : PyDict.dict nat) (k : string) (v : nat) :
  (list_sum (map snd (PyDict.set d k v)) + count_or_zero d k
   = list_sum (map snd d) + v)%nat.
Proof.
  unfold count_or_zero.
  induction d as [|[k0 v0] d IH]; simpl; [lia|].
  destruct (String.eqb k k0); simpl; lia.
Qed.

Lemma sum_count_loop (field : entry -> string) (items : PyDict.dict entry) :
  forall counts,
    list_sum (map snd (count_loop field items counts))
    = (list_sum (map snd counts) + length items)%nat.
Proof.
  induction items as [|[k e] items IH]; intros counts; cbn [count_loop length];
    [lia|].
  rewrite IH.
  pose proof (sum_set counts (field e) (count_or_zero counts (field e) + 1)) as H.
  unfold count_or_zero in H |- *. lia.
Qed.

(** *** Sorting the counts *)

Lemma insert_sorted_in (kv : string * nat) (l : list (string * nat)) (k : string) :
  In k (PyDict.keys (insert_sorted kv l)) <-> k = fst kv \/ In k (PyDict.keys l).
Proof.
  induction l as [|kv' l IH]; cbn [insert_sorted PyDict.keys map In].
  - intuition.
  - destruct (String.leb (fst kv) (fst kv')); cbn [PyDict.keys map In].
    + intuition.
    + fold (PyDict.keys (insert_sorted kv l)). rewrite IH.
      fold (PyDict.keys l). intuition.
Qed.

Lemma insert_sorted_get (kv : string * nat) (l : list (string * nat)) (k : string) :
  ~ In (fst kv) (PyDict.keys l) ->
  PyDict.get (insert_sorted kv l) k
  = if String.eqb k (fst kv) then Some (snd kv) else PyDict.get l k.
Proof.
  destruct kv as [k0 v0]. cbn [fst snd].
  induction l as [|[k' v'] l IH]; intros Hk; cbn [insert_sorted PyDict.get fst];
    [reflexivity|].
  destruct (String.leb k0 k'); cbn [PyDict.get]; [reflexivity|].
  rewrite IH by (intros H; apply Hk; now right).
  destruct (String.eqb k k') eqn:E1, (String.eqb k k0) eqn:E2; try reflexivity.
  apply String.eqb_eq in E1, E2. subst. exfalso. apply Hk. now left.
Qed.

Lemma insert_sorted_sorted (kv : string * nat) (l : list (string * nat)) :
  Sorted key_le l -> Sorted key_le (insert_sorted kv l).
Proof.
  induction l as [|kv' l IH]; intros H; cbn [insert_sorted].
  - repeat constructor.
  - destruct (String.leb (fst kv) (fst kv')) eqn:E.
    + constructor; [exact H|]. constructor. exact E.
    + apply Sorted_inv in H as [Hs Hh].
      constructor; [now apply IH|].
      assert (Hle : key_le kv' kv).
      { unfold key_le. destruct (String.leb_total (fst kv) (fst kv')); congruence. }
      destruct l as [|kv'' l]; cbn [insert_sorted]; [now constructor|].
      destruct (String.leb (fst kv) (fst kv'')); constructor; [exact Hle|].
      now apply HdRel_inv in Hh.
Qed.

Lemma sorted_items_facts (l : list (string * nat)) :
  List.NoDup (PyDict.keys l) ->
  Sorted key_le (sorted_items l)
  /\ List.NoDup (PyDict.keys (sorted_items l))
  /\ (forall k, In k (PyDict.keys (sorted_items l)) <-> In k (PyDict.keys l))
  /\ (forall k, PyDict.get (sorted_items l) k = PyDict.get l k)
  /\ list_sum (map snd (sorted_items l)) = list_sum (map snd l).
Proof.
  induction l as [|[k0 v0] l IH]; intros Hnd; cbn [sorted_items fold_right].
  - repeat split; try constructor; tauto.
  - inversion Hnd as [|? ? Hk Hl]; subst.
    destruct (IH Hl) as (Hs & Hn & Hin & Hget & Hsum).
    fold (sorted_items l).
    assert (Hfresh : ~ In (fst (k0, v0)) (PyDict.keys (sorted_items l)))
      by (cbn [fst]; now rewrite Hin).
    split; [now apply insert_sorted_sorted|]. split; [|split; [|split]].
    + clear - Hn Hfresh. revert Hn Hfresh. generalize (sorted_items l) as s.
      induction s as [|kv' s IHs]; intros Hn Hfresh; cbn [insert_sorted].
      * constructor; [intros []|constructor].
      * destruct (String.leb (fst (k0, v0)) (fst kv')).
        -- constructor; assumption.
        -- cbn [PyDict.keys map]. inversion Hn as [|? ? Hk' Hs']; subst.
           constructor.
           ++ fold (PyDict.keys (insert_sorted (k0, v0) s)).
              rewrite insert_sorted_in. intros [H|H]; [|contradiction].
              apply Hfresh. left. now rewrite H.
           ++ apply IHs; [assumption|]. intros H. apply Hfresh. now right.
    + intros k. rewrite insert_sorted_in, Hin. cbn [PyDict.keys map fst In].
      intuition.
    + intros k. rewrite insert_sorted_get by exact Hfresh.
      cbn [PyDict.get fst snd]. now rewrite Hget.
    + assert (Hins : forall s : list (string * nat),
                 list_sum (map snd (insert_sorted (k0, v0) s))
                 = (v0 + list_sum (map snd s))%nat).
      { induction s as [|kv' s IHs]; simpl; [reflexivity|].
        destruct (String.leb k0 (fst kv')); simpl; [reflexivity|].
        rewrite IHs. lia. }
      rewrite Hins, Hsum. reflexivity.
Qed.

Lemma summary_facts (field : entry -> string) (parsed_data : PyDict.dict entry) :
  (forall v,
      PyDict.get (summary field parsed_data) v
      = match length (with_value field v parsed_data) with
        | O => None
        | S c => Some (S c)
        end)
  /\ Sorted key_le (summary field parsed_data)
  /\ List.NoDup (PyDict.keys (summary field parsed_data))
  /\ list_sum (map snd (summary field parsed_data)) = length parsed_data.
Proof.
  unfold summary.
  destruct (sorted_items_facts (count_loop field parsed_data []))
    as (Hs & Hn & _ & Hget & Hsum);
    [apply nodup_count_loop; constructor|].
  split; [|split; [exact Hs|split; [exact Hn|]]].
  - intros v. now rewrite Hget, count_loop_get.
  - now rewrite Hsum, sum_count_loop.
Qed.

(** X15: the topic and component summaries count what the filters return.
    [get_topic_summary] lists a topic exactly when [filter_by_topic] finds
    an entry for it, with the number of entries found; the topics are in
    ascending order, without repetition, and the counts add up to the
    number of entries.  The same holds of [get_component_summary] and
    [filter_by_component]. *)
Theorem summaries_count_filters (parsed_data : PyDict.dict entry) :
  (forall t,
      PyDict.get (get_topic_summary parsed_data) t
      = match length (filter_by_topic parsed_data t) with
        | O => None
        | S c => Some (S c)
        end)
  /\ (forall c,
         PyDict.get (get_component_summary parsed_data) c
         = match length (filter_by_component parsed_data c) with
           | O => None
           | S n => Some (S n)
           end)
  /\ Sorted (fun a b => String.leb (fst a) (fst b) = true)
            (get_topic_summary parsed_data)
  /\ Sorted (fun a b => String.leb (fst a) (fst b) = true)
            (get_component_summary parsed_data)
  /\ List.NoDup (PyDict.keys (get_topic_summary parsed_data))
  /\ List.NoDup (PyDict.keys (get_component_summary parsed_data))
  /\ list_sum (map snd (get_topic_summary parsed_data)) = length parsed_data
  /\ list_sum (map snd (get_component_summary parsed_data)) = length parsed_data.
Proof.
  destruct (summary_facts topic parsed_data) as (T1 & T2 & T3 & T4).
  destruct (summary_facts ui_component parsed_data) as (C1 & C2 & C3 & C4).
  repeat split; assumption.
Qed.

End SummaryFacts.

(** ** [search_entries] and [export_analysis] *)

Module SearchFacts.

Import PyStr StrFacts LocalizationParser Spec ExportFacts.

Lemma lower_upper_char (c : ascii) : lower_char (upper_char c) = lower_char c.
Proof. destruct c as [[] [] [] [] [] [] [] []]; reflexivity. Qed.

Lemma lower_upper (s : string) : lower (upper s) = lower s.
Proof.
  induction s as [|c s IH]; [reflexivity|].
  cbn [upper lower map_chars]. fold (upper s) (lower s) (lower (upper s)).
  now rewrite lower_upper_char, IH.
Qed.

Lemma contains_empty (s : string) : contains "" s = true.
Proof. now destruct s. Qed.

(** With string texts everywhere the loop keeps the matching entries, in
    order. *)
Lemma search_loop_filter (term : string) (items : PyDict.dict entry) :
  forall results : PyDict.dict entry,
    Forall (fun kv => is_str (text (snd kv)) = true) items ->
    List.NoDup (PyDict.keys items) ->
    (forall k, In k (PyDict.keys items) -> ~ In k (PyDict.keys results)) ->
    search_loop term items results
    = Some (results ++ List.filter (entry_matches term) items).
Proof.
  induction items as [|[k e] items IH]; intros results Hty Hnd Hfresh;
    cbn [search_loop List.filter].
  - now rewrite app_nil_r.
  - inversion Hty as [|? ? Hs Hty']; subst.
    inversion Hnd as [|? ? Hk Hnd']; subst.
    unfold entry_matches at 1. cbn [snd] in Hs |- *.
    destruct (text e) as [ | | |s| | ]; try discriminate.
    destruct (_ || _).
    + rewrite IH; [|assumption|assumption|].
      * rewrite set_fresh by (apply Hfresh; now left).
        now rewrite <- app_assoc.
      * intros k' Hk' Hin.
        rewrite set_fresh in Hin by (apply Hfresh; now left).
        rewrite keys_app in Hin. apply in_app_or in Hin as [Hin|[<-|[]]].
        -- apply (Hfresh k'); [now right|assumption].
        -- contradiction.
    + apply IH; try assumption.
      intros k' Hk'. apply Hfresh. now right.
Qed.

(** A text that is not a string makes the loop raise. *)
Lemma search_loop_raises (term : string) (items : PyDict.dict entry) :
  forall results : PyDict.dict entry,
    Exists (fun kv => is_str (text (snd kv)) = false) items ->
    search_loop term items results = None.
Proof.
  induction items as [|[k e] items IH]; intros results H; [inversion H|].
  cbn [search_loop].
  destruct (text e) as [ | | |s| | ] eqn:E; try reflexivity.
  inversion H as [? ? Hbad|? ? Hlater]; subst.
  - cbn [snd] in Hbad. rewrite E in Hbad. discriminate.
  - destruct (_ || _); now apply IH.
Qed.

Lemma ascii_entry_is_str (e : entry) :
  ascii_entry e = true -> is_str (text e) = true.
Proof.
  unfold ascii_entry. destruct (text e); try discriminate. reflexivity.
Qed.

(** X16: [search_entries].  When every text is a string, the empty term
    returns every entry.  When the term is ASCII and so are the text, the
    description and the topic of every entry, the result is the entries
    whose text, description or topic contains the term, case ignored, in
    their original order, and the case of the term does not matter.  When
    some text is not a string the search raises. *)
Theorem search_entries_matches (parsed_data : PyDict.dict entry) (term : string) :
  List.NoDup (PyDict.keys parsed_data) ->
  (Forall (fun kv => is_str (text (snd kv)) = true) parsed_data ->
   search_entries parsed_data "" = Some parsed_data)
  /\ (is_ascii term = true ->
      Forall (fun kv => ascii_entry (snd kv) = true) parsed_data ->
      search_entries parsed_data term
      = Some (List.filter (entry_matches (lower term)) parsed_data)
      /\ search_entries parsed_data (upper term) = search_entries parsed_data term)
  /\ (Exists (fun kv => is_str (text (snd kv)) = false) parsed_data ->
      search_entries parsed_data term = None).
Proof.
  intros Hnd. split; [|split].
  - intros Hty. unfold search_entries. cbv zeta.
    rewrite search_loop_filter by (auto; intros k _ []).
    cbn [Datatypes.app]. f_equal. change (lower "") with "".
    clear Hnd. induction Hty as [|[k e] l Hs _ IH]; [reflexivity|].
    cbn [List.filter]. unfold entry_matches at 1. cbn [snd] in Hs |- *.
    destruct (text e) as [ | | |s| | ]; try discriminate.
    rewrite contains_empty. cbn [orb]. now rewrite IH.
  - intros _ Hascii.
    assert (Hty : Forall (fun kv => is_str (text (snd kv)) = true) parsed_data).
    { revert Hascii. apply List.Forall_impl. intros kv. apply ascii_entry_is_str. }
    unfold search_entries. cbv zeta. rewrite lower_upper.
    rewrite !search_loop_filter by (auto; intros k _ []).
    split; reflexivity.
  - intros Hbad. unfold search_entries. now apply search_loop_raises.
Qed.

Lemma search_entries_matches_witness :
  search_entries
    [("'dialog(topic.Billing).Card.1.text",
      parse_entry "'dialog(topic.Billing).Card.1.text" (JStr "Pay now"));
     ("'dialog(topic.Greeting).Activity.text",
      parse_entry "'dialog(topic.Greeting).Activity.text" (JStr "Hello"))]
    "PAY"
  = Some [("'dialog(topic.Billing).Card.1.text",
           parse_entry "'dialog(topic.Billing).Card.1.text" (JStr "Pay now"))].
Proof.
  destruct (search_entries_matches
              [("'dialog(topic.Billing).Card.1.text",
                parse_entry "'dialog(topic.Billing).Card.1.text" (JStr "Pay now"));
               ("'dialog(topic.Greeting).Activity.text",
                parse_entry "'dialog(topic.Greeting).Activity.text" (JStr "Hello"))]
              "PAY") as (_ & H & _).
  - repeat constructor; cbn; intuition discriminate.
  - destruct H as [H _]; [reflexivity | repeat constructor |].
    rewrite H. vm_compute. reflexivity.
Defined.

Lemma len_append (a b : string) : len (a +:+ b) = (len a + len b)%nat.
Proof.
  induction a as [|c a IH]; [reflexivity|].
  cbn [String.append len]. rewrite IH. lia.
Qed.

(** The first [n] characters are at most [n] characters. *)
Lemma len_take_chars (s : string) :
  forall n, (len (take_chars n s) <= n)%nat.
Proof.
  induction s as [|c s IH]; intros n; cbn [take_chars]; [cbn; lia|].
  destruct (is_continuation c) eqn:E.
  - cbn [len]. rewrite E. apply IH.
  - destruct n as [|n]; [cbn; lia|].
    cbn [len]. rewrite E. specialize (IH n). lia.
Qed.

Lemma analysis_entries_map (items : PyDict.dict entry) :
  forall acc : list analysis_entry,
    Forall (fun kv => is_str (text (snd kv)) = true) items ->
    exists texts : list string,
      analysis_entries items acc
      = Some (acc ++ map (fun '(kv, t) =>
                            AnalysisEntry (fst kv) (JStr t) (topic (snd kv))
                              (ui_component (snd kv)) (description (snd kv)))
                         (combine items texts))
      /\ length texts = length items
      /\ Forall2 (fun kv t =>
                    exists s, text (snd kv) = JStr s
                              /\ (len t <= 103)%nat
                              /\ ((len s <= 100)%nat -> t = s)
                              /\ ((100 < len s)%nat ->
                                  t = take_chars 100 s +:+ "..."))
                 items texts.
Proof.
  induction items as [|[k e] items IH]; intros acc Hty; cbn [analysis_entries].
  - exists []. rewrite app_nil_r. repeat split. constructor.
  - inversion Hty as [|? ? Hs Hty']; subst. cbn [snd] in Hs.
    destruct (text e) as [ | | |s| | ] eqn:E; try discriminate.
    cbn [analysis_text].
    destruct (100 <? len s)%nat eqn:El.
    + apply Nat.ltb_lt in El.
      destruct (IH (acc ++ [AnalysisEntry k (JStr (take_chars 100 s +:+ "..."))
                              (topic e) (ui_component e) (description e)]) Hty')
        as (texts & Hres & Hlen & Hall).
      exists ((take_chars 100 s +:+ "...") :: texts). split; [|split].
      * rewrite Hres, <- app_assoc. reflexivity.
      * cbn [length]. now rewrite Hlen.
      * constructor; [|exact Hall]. exists s. cbn [snd].
        split; [exact E|]. split; [|split; [lia|reflexivity]].
        rewrite len_append. change (len "...") with 3%nat.
        pose proof (len_take_chars s 100). lia.
    + apply Nat.ltb_ge in El.
      destruct (IH (acc ++ [AnalysisEntry k (JStr s) (topic e)
                              (ui_component e) (description e)]) Hty')
        as (texts & Hres & Hlen & Hall).
      exists (s :: texts). split; [|split].
      * rewrite Hres, <- app_assoc. reflexivity.
      * cbn [length]. now rewrite Hlen.
      * constructor; [|exact Hall]. exists s. cbn [snd].
        split; [exact E|]. split; [lia|]. split; [reflexivity|lia].
Qed.

(** X17: [export_analysis] is bounded.  When every text is a string, the
    analysis reports the total number of entries and lists the first 100 of
    them at most, in order, each with its key, topic, component and
    description; a text of up to 100 characters is listed as it is, a
    longer one as its first 100 characters followed by ["..."], so no listed
    text exceeds 103 characters.  Characters are counted, not bytes. *)
Theorem export_analysis_bounds (parsed_data : PyDict.dict entry) :
  Forall (fun kv => is_str (text (snd kv)) = true) parsed_data ->
  exists (a : analysis) (texts : list string),
    export_analysis parsed_data = Some a
    /\ total_entries a = length parsed_data
    /\ entries a
       = map (fun '(kv, t) =>
                AnalysisEntry (fst kv) (JStr t) (topic (snd kv))
                  (ui_component (snd kv)) (description (snd kv)))
             (combine (firstn 100 parsed_data) texts)
    /\ length (entries a) = Nat.min 100 (length parsed_data)
    /\ Forall2 (fun kv t =>
                  exists s, text (snd kv) = JStr s
                            /\ (len t <= 103)%nat
                            /\ ((len s <= 100)%nat -> t = s)
                            /\ ((100 < len s)%nat ->
                                t = take_chars 100 s +:+ "..."))
               (firstn 100 parsed_data) texts.
Proof.
  intros Hty. unfold export_analysis.
  assert (Hty' : Forall (fun kv => is_str (text (snd kv)) = true)
                        (firstn 100 parsed_data)).
  { now apply Forall_take. }
  destruct (analysis_entries_map (firstn 100 parsed_data) [] Hty')
    as (texts & Hres & Hlen & Hall).
  rewrite Hres. eexists. exists texts. split; [reflexivity|].
  cbn [total_entries entries Datatypes.app].
  split; [reflexivity|]. split; [reflexivity|]. split.
  { rewrite length_map, length_combine, Hlen, Nat.min_id, length_firstn.
    reflexivity. }
  exact Hall.
Qed.

Lemma export_analysis_bounds_witness :
  exists (a : analysis) (texts : list string),
    export_analysis
      [("'dialog(topic.Billing).Card.1.text",
        parse_entry "'dialog(topic.Billing).Card.1.text" (JStr "Pay now"))]
    = Some a
    /\ total_entries a = 1%nat.
Proof.
  destruct (export_analysis_bounds
              [("'dialog(topic.Billing).Card.1.text",
                parse_entry "'dialog(topic.Billing).Card.1.text" (JStr "Pay now"))])
    as (a & texts & H & Ht & _).
  - repeat constructor.
  - exists a, texts. split; [exact H | exact Ht].
Defined.

End SearchFacts.

(** ** Resource bounds of [translate] and [translate_batch] *)

Module BoundFacts.

Import PyStr StrFacts TranslationService.

Lemma attempts_bounds (svc : service) (create : backend) (req : request)
  (key : string) (max_retries : Z) (todo : nat) :
  forall (attempt : Z) (st : state),
    translation_cache st !! key = None ->
    (todo <> 0%nat -> (attempt + Z.of_nat todo)%Z = max_retries) ->
    let out := attempts svc create req key max_retries todo attempt st in
    translation_cache st ⊆ translation_cache (snd out)
    /\ (calls st <= calls (snd out) <= calls st + todo)%nat
    /\ (length (slept (snd out)) <= length (slept st) + (todo - 1))%nat
    /\ (length (slept (snd out)) - length (slept st) < calls (snd out) - calls st
        \/ todo = 0)%nat.
Proof.
  induction todo as [|n IH]; intros attempt st Hmiss Hlast; cbn [attempts].
  - cbn [snd]. split; [reflexivity | lia].
  - destruct (create (calls st) req) as [content|e]; cbv zeta.
    + cbn [snd].
      match goal with
      | |- context [save_cache svc ?x] =>
          destruct (RetryFacts.save_cache_fields svc x) as (Hc & Hs & Hn & _)
      end.
      rewrite Hc, Hs, Hn. cbn [translation_cache slept calls set_cache count_call].
      split; [now apply insert_subseteq | lia].
    + destruct (attempt =? max_retries - 1)%Z eqn:E.
      * cbn [snd translation_cache slept calls print count_call].
        split; [reflexivity | lia].
      * apply Z.eqb_neq in E.
        assert (Hn : n <> 0%nat) by (specialize (Hlast ltac:(discriminate)); lia).
        destruct (IH (attempt + 1)%Z (sleep (count_call st) (2 ^ attempt)%Z))
          as (H1 & H2 & H3 & H4).
        -- exact Hmiss.
        -- intros _. specialize (Hlast ltac:(discriminate)). lia.
        -- cbn [translation_cache slept calls sleep count_call] in H1, H2, H3, H4.
           rewrite length_app in H3, H4. cbn [length] in H3, H4.
           split; [assumption | lia].
Qed.

Lemma translate_bounds_facts (svc : service) (st : state)
  (text L style ctx : string) (max_retries : Z) :
  let out := translate svc st text L style ctx max_retries in
  translation_cache st ⊆ translation_cache (snd out)
  /\ (calls st <= calls (snd out) <= calls st + Z.to_nat max_retries)%nat
  /\ (length (slept (snd out)) <= length (slept st) + (Z.to_nat max_retries - 1))%nat
  /\ (client svc = None -> snd out = st)
  /\ (forall cached,
        translation_cache st !! get_cache_key text L style ctx = Some cached ->
        out = (cached, st)).
Proof.
  cbv zeta. unfold translate.
  destruct (translation_cache st !! get_cache_key text L style ctx) as [cached|] eqn:Hc.
  - cbn [snd]. repeat split; try lia; try reflexivity. now intros ? [= ->].
  - destruct (client svc) as [create|].
    + destruct (attempts_bounds svc create (build_request svc text L style ctx)
                  (get_cache_key text L style ctx) max_retries
                  (Z.to_nat max_retries) 0%Z st Hc) as (H1 & H2 & H3 & _); [lia|].
      repeat split; try assumption; try lia; discriminate.
    + cbn [snd]. repeat split; try lia; try reflexivity. discriminate.
Qed.

(** X18: what one call of [translate] can cost.  Whatever the backend
    does, [translate] calls it at most [max_retries] times, sleeps at most
    [max_retries - 1] times, and never removes or changes an entry of the
    cache; on a cache hit, and without a backend, it leaves the state
    untouched. *)
Theorem translate_bounds (svc : service) (st : state)
  (text L style ctx : string) (max_retries : Z) :
  let out := translate svc st text L style ctx max_retries in
  translation_cache st ⊆ translation_cache (snd out)
  /\ (calls st <= calls (snd out) <= calls st + Z.to_nat max_retries)%nat
  /\ (length (slept (snd out)) <= length (slept st) + (Z.to_nat max_retries - 1))%nat
  /\ (client svc = None -> snd out = st)
  /\ (forall cached,
        translation_cache st !! get_cache_key text L style ctx = Some cached ->
        out = (cached, st)).
Proof. exact (translate_bounds_facts svc st text L style ctx max_retries). Qed.

Lemma batch_loop_bounds (svc : service) (L style : string) (callback : bool)
  (total : Z) (pairs : list (string * string)) :
  forall (i : Z) (results : list string) (st : state),
    let out := batch_loop svc L style callback total i pairs results st in
    translation_cache st ⊆ translation_cache (snd out)
    /\ (calls st <= calls (snd out) <= calls st + 3 * length pairs)%nat
    /\ (length (slept (snd out)) <= length (slept st) + 2 * length pairs)%nat.
Proof.
  induction pairs as [|[text ctx] rest IH]; intros i results st; cbn [batch_loop].
  - cbn [snd length]. repeat split; try lia. reflexivity.
  - destruct (translate_bounds_facts svc st text L style ctx 3) as (T1 & T2 & T3 & _).
    destruct (translate svc st text L style ctx 3) as [translated st1].
    cbn [snd] in T1, T2, T3. change (Z.to_nat 3) with 3%nat in T2, T3.
    specialize (IH (i + 1)%Z (results ++ [translated])
                   (if callback then report st1 ((i + 1)%Z, total, text, translated)
                    else st1)).
    cbv zeta in IH. destruct IH as (H1 & H2 & H3).
    assert (Hsame : translation_cache
                      (if callback then report st1 ((i + 1)%Z, total, text, translated)
                       else st1) = translation_cache st1
                    /\ calls (if callback
                              then report st1 ((i + 1)%Z, total, text, translated)
                              else st1) = calls st1
                    /\ slept (if callback
                              then report st1 ((i + 1)%Z, total, text, translated)
                              else st1) = slept st1)
      by (destruct callback; now repeat split).
    destruct Hsame as (E1 & E2 & E3). rewrite E1 in H1. rewrite E2 in H2.
    rewrite E3 in H3. cbn [length]. repeat split; try lia.
    now transitivity (translation_cache st1).
Qed.

(** X19: what a batch can cost.  [translate_batch] calls the backend at
    most three times and sleeps at most twice per item it returns, returns
    no more items than texts were given, and never removes or changes an
    entry of the cache. *)
Theorem translate_batch_bounds (svc : service) (st : state) (texts : list string)
  (L style : string) (contexts : option (list string)) (callback : bool) :
  let out := translate_batch svc st texts L style contexts callback in
  translation_cache st ⊆ translation_cache (snd out)
  /\ (calls st <= calls (snd out) <= calls st + 3 * length (fst out))%nat
  /\ (length (slept (snd out)) <= length (slept st) + 2 * length (fst out))%nat
  /\ (length (fst out) <= length texts)%nat.
Proof.
  cbv zeta. unfold translate_batch.
  set (cs := match contexts with
             | Some cs => cs
             | None => repeat "" (length texts)
             end).
  destruct (batch_loop_bounds svc L style callback (Z.of_nat (length texts))
              (combine texts cs) 0%Z [] st) as (H1 & H2 & H3).
  destruct (BatchFacts.batch_loop_spec svc L style callback (Z.of_nat (length texts))
              (combine texts cs) 0%Z [] st) as (new & Hres & Hlen & _).
  rewrite Hres. cbn [Datatypes.app]. rewrite Hlen.
  repeat split; try assumption; try lia.
  rewrite BatchFacts.length_zip_min. lia.
Qed.

End BoundFacts.

(** ** Loading a file, and the topic column of the table *)

Module LoadFacts.

Import PyStr StrFacts LocalizationParser App Spec.

(** X20: what [load_file] changes.  Loading never touches the
    translations typed or produced so far, nor the target language; a
    dismissed dialog, an unreadable or malformed file, and a JSON payload
    that is not an object leave the application as it was; a JSON object
    replaces the loaded entries by one parsed entry per key, in the
    order of the file. *)
Theorem load_file_outcomes (a : app) (file_path : string) (file : file_read) :
  let a' := App.load_file a file_path file in
  translated_data a' = translated_data a
  /\ target_language a' = target_language a
  /\ (file_path = "" \/ (forall raw, file <> Loaded (JObj raw)) -> a' = a)
  /\ (forall raw,
        file_path <> "" -> file = Loaded (JObj raw) -> NoDup (PyDict.keys raw) ->
        localization_data a'
        = map (fun kv => (fst kv, parse_entry (fst kv) (snd kv))) raw
        /\ PyDict.keys (localization_data a') = PyDict.keys raw
        /\ (forall k v, In (k, v) raw ->
              PyDict.get (localization_data a') k = Some (parse_entry k v))).
Proof.
  cbv zeta. unfold App.load_file.
  destruct (String.eqb file_path "") eqn:E.
  - apply String.eqb_eq in E. repeat split; try reflexivity; congruence.
  - apply String.eqb_neq in E.
    destruct file as [msg|msg|[]]; cbn [LocalizationParser.load_file];
      cbn [translated_data target_language localization_data];
      (split; [reflexivity|]); (split; [reflexivity|]);
      (split; [intros [H|H]; [congruence | try reflexivity;
                                            exfalso; eapply H; reflexivity]|]);
      intros raw _ Hfile Hnd; try discriminate.
    injection Hfile as ->.
    assert (Hload : load_items raw []
                    = map (fun kv => (fst kv, parse_entry (fst kv) (snd kv))) raw).
    { rewrite ExportFacts.load_items_fresh; [reflexivity | exact Hnd |].
      intros k _ []. }
    rewrite Hload. split; [reflexivity|]. split.
    + unfold PyDict.keys. rewrite map_map. reflexivity.
    + intros k v Hin. clear Hload E. induction raw as [|[k' v'] raw IH];
        [destruct Hin|].
      inversion Hnd as [|? ? Hk Hnd']; subst. cbn [map fst snd PyDict.get].
      destruct Hin as [[= -> ->]|Hin].
      * now rewrite String.eqb_refl.
      * destruct (String.eqb k k') eqn:Ek.
        -- apply String.eqb_eq in Ek. subst. exfalso. apply Hk.
           apply list_elem_of_In. unfold PyDict.keys.
           apply in_map_iff. now exists (k', v).
        -- now apply IH.
Qed.

Lemma append_nil_r (s : string) : s +:+ "" = s.
Proof. induction s as [|c s IH]; simpl; [reflexivity | now rewrite IH]. Qed.

Lemma rev_string_rev (s : string) :
  forall acc acc',
    rev_string acc (rev_string acc' s) = rev_string (s +:+ acc) acc'.
Proof.
  induction s as [|c s IH]; intros acc acc'; simpl; [reflexivity|].
  now rewrite IH.
Qed.

Lemma rev_string_involutive (s : string) : rev_string "" (rev_string "" s) = s.
Proof. rewrite rev_string_rev. simpl. apply append_nil_r. Qed.

Lemma rev_string_append (a : string) :
  forall acc b, rev_string acc (a +:+ b) = rev_string (rev_string acc a) b.
Proof. induction a as [|c a IH]; intros acc b; simpl; [reflexivity | apply IH]. Qed.

Lemma rev_string_acc (s : string) :
  forall acc, rev_string acc s = rev_string "" s +:+ acc.
Proof.
  induction s as [|c s IH]; intros acc; simpl; [reflexivity|].
  rewrite (IH (String c acc)), (IH (String c "")), append_assoc. reflexivity.
Qed.

Lemma lstrip_char_spec (c : ascii) (s : string) :
  exists p, s = p +:+ lstrip_char c s
            /\ all_chars (Ascii.eqb c) p = true
            /\ startswith (lstrip_char c s) (String c "") = false.
Proof.
  induction s as [|d s (p & Hs & Hp & Hn)]; simpl.
  - now exists "".
  - destruct (Ascii.eqb c d) eqn:E.
    + apply Ascii.eqb_eq in E. subst d. exists (String c p). simpl.
      rewrite Ascii.eqb_refl, Hp. repeat split; [now rewrite <- Hs | exact Hn].
    + exists "". repeat split. unfold startswith. simpl. now rewrite E.
Qed.

Lemma endswith_char_inv (c : ascii) (s : string) :
  endswith s (String c "") = true -> exists a, s = a +:+ String c "".
Proof.
  induction s as [|d s IH]; cbn [endswith]; [discriminate|].
  intros H. apply orb_true_iff in H as [H|H].
  - apply String.eqb_eq in H. exists "". exact H.
  - destruct (IH H) as [a ->]. now exists (String d a).
Qed.

Lemma endswith_char_append (c : ascii) (a : string) :
  endswith (a +:+ String c "") (String c "") = true.
Proof.
  induction a as [|d a IH]; simpl.
  - now rewrite Ascii.eqb_refl.
  - rewrite IH. apply orb_true_r.
Qed.

Lemma count_char_append (c : ascii) (a b : string) :
  count_char c (a +:+ b) = (count_char c a + count_char c b)%nat.
Proof. induction a as [|d a IH]; simpl; [reflexivity | rewrite IH; lia]. Qed.

Lemma count_char_absent (c : ascii) (s : string) :
  contains (String c "") s = false -> count_char c s = 0%nat.
Proof.
  induction s as [|d s IH]; [reflexivity|].
  rewrite contains_char_cons. intros H. apply orb_false_iff in H as [E H].
  simpl. rewrite E. now rewrite IH.
Qed.

Lemma rstrip_char_spec (c : ascii) (s : string) :
  (exists tail, s = rstrip_char c s +:+ tail
                /\ all_chars (Ascii.eqb c) tail = true)
  /\ endswith (rstrip_char c s) (String c "") = false.
Proof.
  unfold rstrip_char.
  destruct (lstrip_char_spec c (rev_string "" s)) as (p & Hs & Hp & Hn).
  set (v := lstrip_char c (rev_string "" s)) in *.
  split.
  - exists (rev_string "" p). split.
    + rewrite <- (rev_string_involutive s) at 1. rewrite Hs.
      rewrite rev_string_append. apply rev_string_acc.
    + rewrite ValidationMore.all_chars_rev. now rewrite Hp.
  - destruct (endswith (rev_string "" v) (String c "")) eqn:E; [|reflexivity].
    apply endswith_char_inv in E as [a Ha].
    assert (Hv : v = String c (rev_string "" a)).
    { rewrite <- (rev_string_involutive v), Ha, rev_string_append. reflexivity. }
    rewrite Hv in Hn. unfold startswith in Hn. simpl in Hn.
    rewrite Ascii.eqb_refl in Hn. discriminate.
Qed.

(** X21: the topic column of the table.  [load_data] only ever removes
    closing parentheses from the end of a topic; what it shows ends with a
    closing parenthesis only when the topic was left untouched because its
    parentheses are not in excess; and a name without parentheses followed
    by one stray closing parenthesis, as the parser leaves it, is shown as
    the name alone. *)
Theorem display_topic_cleanup (raw_topic : string) :
  let shown := display_topic raw_topic in
  (exists tail, raw_topic = shown +:+ tail
                /\ all_chars (Ascii.eqb ")") tail = true)
  /\ (endswith shown ")" = true ->
      shown = raw_topic
      /\ (count_char ")" raw_topic <= count_char "(" raw_topic)%nat)
  /\ (forall name,
        raw_topic = name +:+ ")" ->
        contains "(" name = false -> contains ")" name = false ->
        shown = name).
Proof.
  cbv zeta. unfold display_topic.
  destruct (rstrip_char_spec ")" raw_topic) as ((tail & Ht & Hall) & Hend).
  destruct (endswith raw_topic ")"
            && (count_char "(" raw_topic <? count_char ")" raw_topic)%nat) eqn:C.
  - split; [now exists tail|]. split; [now rewrite Hend|].
    intros name -> Hopen Hclose.
    unfold rstrip_char. rewrite rev_string_append. simpl.
    destruct (lstrip_char_spec ")" (rev_string "" name)) as (p & Hs & Hp & _).
    destruct p as [|d p].
    + simpl in Hs. rewrite <- Hs. apply rev_string_involutive.
    + exfalso. cbn [all_chars] in Hp. apply andb_true_iff in Hp as [Hd _].
      apply Ascii.eqb_eq in Hd. subst d.
      assert (Hc : contains ")" (rev_string "" (rev_string "" name)) = true).
      { rewrite Hs. simpl. rewrite rev_string_acc.
        apply contains_spec. eexists. exists "". reflexivity. }
      rewrite rev_string_involutive in Hc. congruence.
  - split; [exists ""; now rewrite append_nil_r|]. split.
    + intros E. rewrite E in C. simpl in C. apply Nat.ltb_ge in C. now split.
    + intros name -> Hopen Hclose. exfalso.
      rewrite endswith_char_append in C. simpl in C.
      rewrite !count_char_append, (count_char_absent _ _ Hopen),
        (count_char_absent _ _ Hclose) in C. simpl in C. discriminate.
Qed.

End LoadFacts.

(** ** The component attribute of the context and the component tag *)

Module ContextFacts.

Import PyStr StrFacts Regex LocalizationParser Spec.

Lemma search_sound (r : re) (s : string) (m : rmatch_obj) :
  search r s = Some m ->
  exists a s', s = a +:+ s' /\ match_at r s' = Some m.
Proof.
  induction s as [|c s IH]; cbn [search].
  - destruct (match_at r "") eqn:E; [|discriminate].
    intros [= <-]. now exists "", "".
  - destruct (match_at r (String c s)) eqn:E.
    + intros [= <-]. now exists "", (String c s).
    + intros H. destruct (IH H) as (a & s' & -> & Hm).
      now exists (String c a), s'.
Qed.

Lemma search_complete (r : re) (a s' : string) :
  match_at r s' <> None -> search r (a +:+ s') <> None.
Proof.
  intros H. induction a as [|c a IH]; cbn [String.append].
  - destruct s'; cbn [search]; destruct (match_at r _); congruence.
  - cbn [search]. destruct (match_at r (String c (a +:+ s'))); [discriminate|].
    exact IH.
Qed.

(** An alternation of literals matches one of them. *)
Lemma rmatch_alts_inv {A : Type} (l : list string) :
  forall (r0 : re) (l0 : list string),
    (forall s caps (k : string -> list string -> option A) res,
        rmatch r0 s caps k = Some res ->
        exists c rest, In c l0 /\ s = c +:+ rest /\ k rest caps = Some res) ->
    forall s caps (k : string -> list string -> option A) res,
      rmatch (fold_left (fun r y => Alt r (Str y)) l r0) s caps k = Some res ->
      exists c rest, In c (l0 ++ l) /\ s = c +:+ rest /\ k rest caps = Some res.
Proof.
  induction l as [|y l IH]; intros r0 l0 H0 s caps k res; cbn [fold_left].
  - rewrite app_nil_r. apply H0.
  - replace (l0 ++ y :: l) with ((l0 ++ [y]) ++ l)
      by (now rewrite <- app_assoc).
    apply IH. clear s caps k res. intros s caps k res. cbn [rmatch].
    destruct (rmatch r0 s caps k) eqn:E.
    + intros [= <-]. destruct (H0 _ _ _ _ E) as (c & rest & Hin & Hs & Hk).
      exists c, rest. repeat split; try assumption. apply in_or_app. now left.
    + destruct (strip_prefix y s) as [rest|] eqn:Ey; [|discriminate].
      intros Hk. exists y, rest. repeat split; try assumption.
      * apply in_or_app. right. now left.
      * now apply strip_prefix_Some.
Qed.

Lemma match_at_component (s : string) (m : rmatch_obj) :
  match_at (cat [Str "."; Group (alt_strs ["Card"; "Activity"; "Prompt"; "Entity"]);
                 Str "."]) s = Some m ->
  exists c rest,
    In c ["Card"; "Activity"; "Prompt"; "Entity"]
    /\ s = "." +:+ c +:+ "." +:+ rest
    /\ group m 1 = c.
Proof.
  unfold match_at. cbn [cat rmatch].
  destruct (strip_prefix "." s) as [r0|] eqn:E0; [|discriminate].
  apply strip_prefix_Some in E0. subst s. unfold alt_strs. intros H.
  apply (rmatch_alts_inv _ (Str "Card") ["Card"]) in H.
  - destruct H as (c & rest & Hin & -> & H).
    destruct (strip_prefix "." rest) as [r1|] eqn:E1; [|discriminate].
    apply strip_prefix_Some in E1. subst rest. injection H as <-.
    exists c, r1. repeat split; [exact Hin|].
    unfold group. cbn [groups Datatypes.app Nat.sub nth].
    apply TopicFacts.consumed_append.
  - clear. intros s caps k res. cbn [rmatch].
    destruct (strip_prefix "Card" s) as [rest|] eqn:E; [|discriminate].
    intros Hk. exists "Card", rest. repeat split; try assumption; [now left|].
    now apply strip_prefix_Some.
Qed.

Lemma match_at_component_here (c rest : string) :
  In c ["Card"; "Activity"; "Prompt"; "Entity"] ->
  match_at (cat [Str "."; Group (alt_strs ["Card"; "Activity"; "Prompt"; "Entity"]);
                 Str "."]) ("." +:+ c +:+ "." +:+ rest) <> None.
Proof.
  intros [<-|[<-|[<-|[<-|[]]]]]; unfold match_at; simpl; discriminate.
Qed.

Lemma context_component_get (key : string) :
  PyDict.get (extract_context key) "component"
  = match search (cat [Str ".";
                       Group (alt_strs ["Card"; "Activity"; "Prompt"; "Entity"]);
                       Str "."]) key with
    | Some m => Some (group m 1)
    | None => None
    end.
Proof.
  unfold extract_context, context_patterns. cbn [extract_context_from].
  repeat match goal with
         | |- context [search ?r key] => destruct (search r key)
         end; reflexivity.
Qed.

(** X22: the two component tags of a record.  The context of a key has a
    [component] attribute exactly when the component tag is one of
    [Card], [Activity], [Prompt] and [Entity]; the attribute is then one
    of these four names and occurs in the key between two dots. *)
Theorem context_component_agrees (key : string) :
  match PyDict.get (extract_context key) "component" with
  | Some c =>
      In c ["Card"; "Activity"; "Prompt"; "Entity"]
      /\ contains ("." +:+ c +:+ ".") key = true
      /\ In (extract_ui_component key) ["Card"; "Activity"; "Prompt"; "Entity"]
  | None =>
      ~ In (extract_ui_component key) ["Card"; "Activity"; "Prompt"; "Entity"]
  end.
Proof.
  rewrite context_component_get.
  destruct (search _ key) as [m|] eqn:S.
  - apply search_sound in S as (a & s' & -> & Hm).
    apply match_at_component in Hm as (c & rest & Hin & -> & ->).
    assert (Hc : contains ("." +:+ c +:+ ".") (a +:+ "." +:+ c +:+ "." +:+ rest)
                 = true).
    { apply contains_spec. exists a, rest. now rewrite !append_assoc. }
    split; [exact Hin|]. split; [exact Hc|].
    revert Hc. generalize (a +:+ "." +:+ c +:+ "." +:+ rest). intros k Hc.
    unfold extract_ui_component, components. cbn [first_component].
    change ("." +:+ "Card" +:+ ".") with ".Card.".
    change ("." +:+ "Activity" +:+ ".") with ".Activity.".
    change ("." +:+ "Prompt" +:+ ".") with ".Prompt.".
    change ("." +:+ "Entity" +:+ ".") with ".Entity.".
    destruct (contains ".Card." k) eqn:HC; [simpl; tauto|].
    destruct (contains ".Activity." k) eqn:HA; [simpl; tauto|].
    destruct (contains ".Prompt." k) eqn:HP; [simpl; tauto|].
    destruct (contains ".Entity." k) eqn:HE; [simpl; tauto|].
    exfalso. destruct Hin as [<-|[<-|[<-|[<-|[]]]]]; simpl in Hc; congruence.
  - assert (Hno : forall c, In c ["Card"; "Activity"; "Prompt"; "Entity"] ->
                            contains ("." +:+ c +:+ ".") key = false).
    { intros c Hin. destruct (contains ("." +:+ c +:+ ".") key) eqn:E; [|reflexivity].
      exfalso. apply contains_inv in E as (a & b & ->).
      revert S. apply search_complete.
      rewrite !append_assoc. now apply match_at_component_here. }
    pose proof (Hno "Card" ltac:(simpl; tauto)) as H1.
    pose proof (Hno "Activity" ltac:(simpl; tauto)) as H2.
    pose proof (Hno "Prompt" ltac:(simpl; tauto)) as H3.
    pose proof (Hno "Entity" ltac:(simpl; tauto)) as H4.
    simpl in H1, H2, H3, H4.
    unfold extract_ui_component, components. cbn [first_component]. simpl String.append.
    rewrite H1, H2, H3, H4.
    repeat match goal with
           | |- context [if ?b then _ else _] => destruct b
           end;
      intros [H|[H|[H|[H|[]]]]]; discriminate.
Qed.

End ContextFacts.
